(** * AI-Notes-Summarizer: the text analysis core

    A shallow embedding of [utils/search_utils.py], [utils/summarizer.py]
    and of the [search_results] handler of [app.py], with the properties
    of the search engine and of the extractive summarizer.

    Conventions of the embedding.
    - A Python [str] is a list of characters.  Characters are the code
      points U+0000..U+00FF, held in [ascii]; [str.lower], [str.strip] and
      the classes [\s], [\d], [\w] of the [re] module are written out on
      that range.  Texts with other characters are outside the embedding:
      there [str.lower] can change the length of a text, and
      [re.IGNORECASE] equates more characters than lower-casing does.
    - A [dict] is an association list in insertion order, since
      [sorted] is stable and therefore observes that order.
    - The [while True] loop of [search_in_text] takes fuel and returns
      [None] when the fuel runs out; [search_in_text_returns] shows that
      the fuel given, the length of the lower-cased text plus 2, is always
      enough.  As in the source, the offsets found in the lower-cased text
      are applied to the text itself; the statements on offsets are worded
      on the lower-cased text for that reason.
    - Python floats are rendered by exact rationals ([Q]); no statement
      below depends on how a product or a quotient is rounded. *)

From Stdlib Require Import Ascii String NArith ZArith QArith Arith Bool Lia List
  Sorted Permutation.
Import ListNotations.

Local Open Scope nat_scope.
Local Open Scope list_scope.

(** ** Characters and strings *)

Module Py.

Definition str := list ascii.

(** String literals of the source. *)
Definition lit (s : string) : str := list_ascii_of_string s.

Definition code (c : ascii) : nat := nat_of_ascii c.

Definition between (lo hi n : nat) : bool := (lo <=? n) && (n <=? hi).

(** [c.lower()] for one character. *)
Definition lower_char (c : ascii) : ascii :=
  let n := code c in
  if between 65 90 n || (between 192 222 n && negb (n =? 215))
  then ascii_of_nat (n + 32) else c.

(** [s.lower()]. *)
Definition lower (s : str) : str := map lower_char s.

(** [c.upper()] for one character.  The upper case of U+00B5, U+00DF and
    U+00FF is not a single character of the range; none of them yields a
    letter of the words AND and OR, the only use made of [upper] in the
    source, and they are left as they are. *)
Definition upper_char (c : ascii) : ascii :=
  let n := code c in
  if between 97 122 n || (between 224 254 n && negb (n =? 247))
  then ascii_of_nat (n - 32) else c.

Definition upper (s : str) : str := map upper_char s.

(** [\s] and [str.isspace]. *)
Definition is_space (c : ascii) : bool :=
  let n := code c in
  between 9 13 n || between 28 32 n || (n =? 133) || (n =? 160).

(** [\d]. *)
Definition is_digit (c : ascii) : bool := between 48 57 (code c).

(** [[a-zA-Z]]. *)
Definition is_ascii_letter (c : ascii) : bool :=
  let n := code c in between 65 90 n || between 97 122 n.

(** [[a-z]]. *)
Definition is_ascii_lower (c : ascii) : bool := between 97 122 (code c).

(** [\w]: alphanumeric characters and the underscore. *)
Definition is_word (c : ascii) : bool :=
  let n := code c in
  is_ascii_letter c || is_digit c || (n =? 95)
  || (n =? 170) || (n =? 178) || (n =? 179) || (n =? 181) || (n =? 185)
  || (n =? 186) || between 188 190 n
  || (between 192 255 n && negb (n =? 215) && negb (n =? 247)).

Definition eqb_str (a b : str) : bool :=
  if list_eq_dec ascii_dec a b then true else false.

(** [x in l] for a list or a set of strings. *)
Definition mem (x : str) (l : list str) : bool := existsb (eqb_str x) l.

(** [s.startswith(p)]. *)
Fixpoint startswith (p s : str) : bool :=
  match p, s with
  | [], _ => true
  | _ :: _, [] => false
  | a :: p', b :: s' => Ascii.eqb a b && startswith p' s'
  end.

(** [s[i:j]] for [0 <= i], [0 <= j]. *)
Definition slice (s : str) (i j : nat) : str := firstn (j - i) (skipn i s).

(** [occurs sub s p]: [sub] stands in [s] at offset [p]. *)
Definition occurs (sub s : str) (p : nat) : Prop :=
  p + length sub <= length s /\ slice s p (p + length sub) = sub.

Fixpoint dropwhile (f : ascii -> bool) (s : str) : str :=
  match s with
  | [] => []
  | c :: s' => if f c then dropwhile f s' else s
  end.

Fixpoint takewhile (f : ascii -> bool) (s : str) : str :=
  match s with
  | [] => []
  | c :: s' => if f c then c :: takewhile f s' else []
  end.

(** [s.strip()]. *)
Definition strip (s : str) : str :=
  rev (dropwhile is_space (rev (dropwhile is_space s))).

(** [s.count(c)] for a one-character [c]. *)
Definition count_char (c : ascii) (s : str) : nat := count_occ ascii_dec s c.

(** The lowest index at which [sub] occurs in [s]. *)
Fixpoint find0 (s sub : str) : option nat :=
  if startswith sub s then Some 0
  else match s with
       | [] => None
       | _ :: s' => option_map S (find0 s' sub)
       end.

(** [s.find(sub, start)] for [0 <= start]; [None] stands for [-1]. *)
Definition find (s sub : str) (start : nat) : option nat :=
  if start <=? length s
  then option_map (fun i => start + i) (find0 (skipn start s) sub)
  else None.

(** [sub in s]. *)
Definition contains (sub s : str) : bool :=
  match find0 s sub with Some _ => true | None => false end.

(** [sep.join(parts)]. *)
Fixpoint join (sep : str) (parts : list str) : str :=
  match parts with
  | [] => []
  | [p] => p
  | p :: rest => p ++ sep ++ join sep rest
  end.

(** [int(s)] for a string of decimal digits. *)
Definition int_of_digits (s : str) : N :=
  fold_left (fun acc c => (10 * acc + N.of_nat (code c - 48))%N) s 0%N.

End Py.

(** ** The scan of the [re] module

    [re.findall], [re.sub] and [re.split] walk the string from left to
    right, take the leftmost match, and resume where it ends.  A pattern
    is given by its matcher: [m prev s] is the length of the match of the
    pattern at the start of [s], [prev] being the character before it. *)

Module Re.
Import Py.

Definition matcher := option ascii -> str -> option nat.

Inductive piece : Type :=
| Lit (c : ascii)      (* a character outside every match *)
| Hit (w : str).       (* a match *)

(** [skip] counts the characters of the current match still to pass. *)
Fixpoint scan (m : matcher) (prev : option ascii) (s : str) (skip : nat)
  : list piece :=
  match s with
  | [] =>
      match skip, m prev [] with
      | 0, Some _ => [Hit []]
      | _, _ => []
      end
  | c :: s' =>
      match skip with
      | S k => scan m (Some c) s' k
      | 0 =>
          match m prev s with
          | Some 0 => Hit [] :: Lit c :: scan m (Some c) s' 0
          | Some (S k) => Hit (firstn (S k) s) :: scan m (Some c) s' k
          | None => Lit c :: scan m (Some c) s' 0
          end
      end
  end.

(** [re.finditer]: the pieces of the whole string. *)
Definition pieces (m : matcher) (s : str) : list piece := scan m None s 0.

(** [re.findall] for a pattern without group: the matches. *)
Fixpoint hits (ps : list piece) : list str :=
  match ps with
  | [] => []
  | Lit _ :: ps' => hits ps'
  | Hit w :: ps' => w :: hits ps'
  end.

Definition findall (m : matcher) (s : str) : list str := hits (pieces m s).

(** [re.sub] with a function of the match as replacement. *)
Fixpoint sub_pieces (repl : str -> str) (ps : list piece) : str :=
  match ps with
  | [] => []
  | Lit c :: ps' => c :: sub_pieces repl ps'
  | Hit w :: ps' => repl w ++ sub_pieces repl ps'
  end.

Definition sub (m : matcher) (repl : str -> str) (s : str) : str :=
  sub_pieces repl (pieces m s).

(** [re.split]: the stretches between the matches; [cur] is the stretch
    being read, in reverse. *)
Fixpoint split_pieces (cur : str) (ps : list piece) : list str :=
  match ps with
  | [] => [rev cur]
  | Lit c :: ps' => split_pieces (c :: cur) ps'
  | Hit _ :: ps' => rev cur :: split_pieces [] ps'
  end.

Definition split (m : matcher) (s : str) : list str :=
  split_pieces [] (pieces m s).

(** The text the pieces were cut from. *)
Fixpoint text_of (ps : list piece) : str :=
  match ps with
  | [] => []
  | Lit c :: ps' => c :: text_of ps'
  | Hit w :: ps' => w ++ text_of ps'
  end.

End Re.

(** ** [utils/search_utils.py] *)

Module Search.
Import Py Re.

(** One entry of [results]: the dict built at each occurrence. *)
Record Match : Type := mkMatch {
  line_number : nat;
  page_number : option N;
  snippet : str;
  position : nat
}.

(** The dict returned by [search_in_text]. *)
Record SearchResult : Type := mkResult {
  matches : list Match;
  count : nat;
  query : str
}.

Definition newline : ascii := ascii_of_nat 10.

(** [re.compile(re.escape(query), re.IGNORECASE)]: the query as a literal,
    two characters being equal when their lower cases are. *)
Definition literal_ignorecase (q : str) : matcher :=
  fun _ s => if startswith (lower q) (lower s) then Some (length q) else None.

(** The replacement [lambda m: f'<mark>{m.group(0)}</mark>']. *)
Definition mark (w : str) : str := lit "<mark>" ++ w ++ lit "</mark>".

Definition highlight_text (text query : str) : str :=
  sub (literal_ignorecase query) mark text.

(** [expect p s]: what is left of [s] once the literal [p] is read. *)
Definition expect (p s : str) : option str :=
  if startswith p s then Some (skipn (length p) s) else None.

(** The pattern [---\s*(?:Page|Slide)\s+(\d+)\s*---] read at the start
    of [s]: group 1 and what follows the match.  Every repetition is
    followed by a character outside its class, so the greedy reading is
    the only one. *)
Definition marker_parse (s : str) : option (str * str) :=
  match expect (lit "---") s with
  | None => None
  | Some s1 =>
      let s2 := dropwhile is_space s1 in
      match
        match expect (lit "Page") s2 with
        | Some r => Some r
        | None => expect (lit "Slide") s2
        end
      with
      | None => None
      | Some s3 =>
          match takewhile is_space s3 with
          | [] => None
          | _ :: _ =>
              let s4 := dropwhile is_space s3 in
              match takewhile is_digit s4 with
              | [] => None
              | (_ :: _) as digits =>
                  let s5 := dropwhile is_space (dropwhile is_digit s4) in
                  match expect (lit "---") s5 with
                  | None => None
                  | Some rest => Some (digits, rest)
                  end
              end
          end
      end
  end.

Definition page_marker : matcher :=
  fun _ s =>
    match marker_parse s with
    | Some (_, rest) => Some (length s - length rest)
    | None => None
    end.

(** Group 1 of a match of the pattern. *)
Definition page_group (w : str) : str :=
  match marker_parse w with
  | Some (digits, _) => digits
  | None => []
  end.

Definition extract_page_number (text : str) (position : nat) : option N :=
  let search_text := slice text (Nat.max 0 (position - 500)) position in
  let page_match := map page_group (findall page_marker search_text) in
  match rev page_match with
  | [] => None
  | last :: _ => Some (int_of_digits last)
  end.

(** The dict appended to [results] for the occurrence at [pos]. *)
Definition match_at (text query : str) (context_chars pos : nat) : Match :=
  let line_num := count_char newline (firstn pos text) + 1 in
  let start := Nat.max 0 (pos - context_chars) in
  let end_ := Nat.min (length text) (pos + length query + context_chars) in
  let snippet := slice text start end_ in
  let snippet := if 0 <? start then lit "..." ++ snippet else snippet in
  let snippet := if end_ <? length text then snippet ++ lit "..." else snippet in
  let highlighted_snippet := highlight_text snippet query in
  let page_num := extract_page_number text pos in
  mkMatch line_num page_num highlighted_snippet pos.

(** The [while True] loop of [search_in_text]. *)
Fixpoint search_loop (fuel : nat) (text query text_lower query_lower : str)
    (context_chars position : nat) (results : list Match) (match_count : nat)
  : option (list Match * nat) :=
  match fuel with
  | 0 => None
  | S fuel' =>
      match find text_lower query_lower position with
      | None => Some (results, match_count)
      | Some pos =>
          search_loop fuel' text query text_lower query_lower context_chars
            (pos + 1)
            (results ++ [match_at text query context_chars pos])
            (match_count + 1)
      end
  end.

Definition search_in_text (text query : str) (context_chars : nat)
  : option SearchResult :=
  let query_lower := lower query in
  let text_lower := lower text in
  match
    search_loop (length text_lower + 2) text query text_lower query_lower
      context_chars 0 [] 0
  with
  | Some (results, match_count) => Some (mkResult results match_count query)
  | None => None
  end.

(** The default [context_chars=150]. *)
Definition default_context : nat := 150.

(** The patterns [\s+AND\s+] and [\s+OR\s+] under [re.IGNORECASE]. *)
Definition spaced_word (kw : str) : matcher :=
  fun _ s =>
    match takewhile is_space s with
    | [] => None
    | (_ :: _) as ws1 =>
        let s1 := dropwhile is_space s in
        if startswith (lower kw) (lower s1) then
          match takewhile is_space (skipn (length kw) s1) with
          | [] => None
          | (_ :: _) as ws2 => Some (length ws1 + length kw + length ws2)
          end
        else None
    end.

(** What [search_with_operators] returns: a list of results for AND, one
    result otherwise. *)
Inductive OperatorResult : Type :=
| PerTerm (rs : list SearchResult)
| Single (r : SearchResult).

(** The loop of the AND branch. *)
Fixpoint search_each (text : str) (terms : list str)
  : option (list SearchResult) :=
  match terms with
  | [] => Some []
  | term :: rest =>
      match search_in_text text term default_context with
      | None => None
      | Some term_results =>
          match search_each text rest with
          | None => None
          | Some rs => Some (term_results :: rs)
          end
      end
  end.

(** The loop of the OR branch: [combined_results.extend(...)]. *)
Fixpoint search_extend (text : str) (terms : list str)
    (combined_results : list Match) : option (list Match) :=
  match terms with
  | [] => Some combined_results
  | term :: rest =>
      match search_in_text text term default_context with
      | None => None
      | Some term_results =>
          search_extend text rest (combined_results ++ matches term_results)
      end
  end.

Definition search_with_operators (text query : str) : option OperatorResult :=
  if contains (lit " AND ") (upper query) then
    let terms := map strip (split (spaced_word (lit "AND")) query) in
    option_map PerTerm (search_each text terms)
  else if contains (lit " OR ") (upper query) then
    let terms := map strip (split (spaced_word (lit "OR")) query) in
    match search_extend text terms [] with
    | None => None
    | Some combined_results =>
        Some (Single (mkResult combined_results (length combined_results) query))
    end
  else option_map Single (search_in_text text query default_context).

End Search.

(** ** [utils/summarizer.py] *)

Module Summarizer.
Import Py Re.

(** Exceptions that the operations used by the summarizer can raise. *)
Inductive exn : Type := ZeroDivisionError | ValueError.

Inductive outcome (A : Type) : Type :=
| Ok (a : A)
| Raise (e : exn).
Arguments Ok {A} a.
Arguments Raise {A} e.

Definition bind {A B : Type} (o : outcome A) (k : A -> outcome B) : outcome B :=
  match o with
  | Ok a => k a
  | Raise e => Raise e
  end.

Notation "x <- o ;; k" := (bind o (fun x => k))
  (at level 61, o at next level, right associativity).

Fixpoint map_outcome {A B : Type} (f : A -> outcome B) (l : list A)
  : outcome (list B) :=
  match l with
  | [] => Ok []
  | a :: l' => b <- f a ;; bs <- map_outcome f l' ;; Ok (b :: bs)
  end.

(** *** Dicts, in insertion order *)

Definition dict (V : Type) := list (str * V).

(** [d[k] = v]: a key already present keeps its place. *)
Fixpoint dict_set {V : Type} (k : str) (v : V) (d : dict V) : dict V :=
  match d with
  | [] => [(k, v)]
  | (k', v') :: d' =>
      if eqb_str k' k then (k', v) :: d' else (k', v') :: dict_set k v d'
  end.

Fixpoint dict_get {V : Type} (k : str) (d : dict V) : option V :=
  match d with
  | [] => None
  | (k', v') :: d' => if eqb_str k' k then Some v' else dict_get k d'
  end.

Definition keys {V : Type} (d : dict V) : list str := map fst d.
Definition values {V : Type} (d : dict V) : list V := map snd d.

(** [Counter(words)]. *)
Definition counter_add (d : dict nat) (w : str) : dict nat :=
  match dict_get w d with
  | Some n => dict_set w (n + 1) d
  | None => dict_set w 1 d
  end.

Definition Counter (words : list str) : dict nat :=
  fold_left counter_add words [].

(** *** Sorting *)

(** [sorted] is stable: [before x y] tells that [x], which stood before
    [y] in the input, also stands before it in the output. *)
Fixpoint insert_by {A : Type} (before : A -> A -> bool) (x : A) (l : list A)
  : list A :=
  match l with
  | [] => [x]
  | y :: l' => if before x y then x :: l else y :: insert_by before x l'
  end.

Definition sorted_by {A : Type} (before : A -> A -> bool) (l : list A)
  : list A :=
  fold_right (insert_by before) [] l.

(** [l.index(x)]. *)
Fixpoint index (l : list str) (x : str) : outcome nat :=
  match l with
  | [] => Raise ValueError
  | y :: l' => if eqb_str y x then Ok 0 else i <- index l' x ;; Ok (S i)
  end.

(** *** Tokens and sentences *)

Definition get_stop_words : list str :=
  map lit
    ["the"; "a"; "an"; "and"; "or"; "but"; "in"; "on"; "at"; "to"; "for";
     "of"; "with"; "by"; "from"; "as"; "is"; "was"; "are"; "were"; "be";
     "been"; "being"; "have"; "has"; "had"; "do"; "does"; "did"; "will";
     "would"; "could"; "should"; "may"; "might"; "can"; "this"; "that";
     "these"; "those"; "i"; "you"; "he"; "she"; "it"; "we"; "they"; "them";
     "their"; "what"; "which"; "who"; "when"; "where"; "why"; "how"; "all";
     "each"; "every"; "both"; "few"; "more"; "most"; "other"; "some"; "such";
     "no"; "nor"; "not"; "only"; "own"; "same"; "so"; "than"; "too"; "very";
     "just"; "also"; "into"; "through"; "during"; "before"; "after"; "above";
     "below"; "between"; "under"; "again"; "further"; "then"; "once"]%string.

Definition is_word_opt (c : option ascii) : bool :=
  match c with
  | Some c => is_word c
  | None => false
  end.

(** The pattern [\b[a-zA-Z]{3,}\b].  The run of letters is read greedily;
    a shorter reading would end between two letters, where there is no
    word boundary, so the match is the whole run or nothing. *)
Definition word_pattern : matcher :=
  fun prev s =>
    let run := takewhile is_ascii_letter s in
    if (3 <=? length run)
       && negb (is_word_opt prev)
       && negb (is_word_opt (hd_error (skipn (length run) s)))
    then Some (length run) else None.

Definition is_terminal (c : ascii) : bool :=
  let n := code c in (n =? 46) || (n =? 33) || (n =? 63).

(** The pattern [(?<=[.!?])\s+]. *)
Definition sentence_break : matcher :=
  fun prev s =>
    match prev with
    | Some p =>
        if is_terminal p then
          match takewhile is_space s with
          | [] => None
          | (_ :: _) as ws => Some (length ws)
          end
        else None
    | None => None
    end.

Definition split_into_sentences (text : str) : list str :=
  let sentences := split sentence_break text in
  filter (fun sent => (15 <? length sent) && negb (startswith (lit "---") sent))
         (map strip sentences).

(** *** Word frequencies *)

(** [a / b] on two ints. *)
Definition true_div (a b : nat) : outcome Q :=
  match b with
  | 0 => Raise ZeroDivisionError
  | S _ => Ok (Z.of_nat a # Pos.of_nat b)
  end.

(** The tokens counted by [calculate_word_frequency]. *)
Definition counted_words (text : str) : list str :=
  let stop_words := get_stop_words in
  let words := findall word_pattern (lower text) in
  filter (fun w => negb (mem w stop_words)) words.

Definition calculate_word_frequency (text : str) : outcome (dict Q) :=
  let word_count := Counter (counted_words text) in
  let max_freq :=
    match word_count with
    | [] => 1
    | _ :: _ => fold_right Nat.max 0 (values word_count)
    end in
  map_outcome
    (fun '(word, freq) => q <- true_div freq max_freq ;; Ok (word, q))
    word_count.

(** *** Scores *)

Definition Qltb (a b : Q) : bool := negb (Qle_bool b a).

Definition of_nat (n : nat) : Q := inject_Z (Z.of_nat n).

Definition markers : list str :=
  map lit ["important"; "key"; "definition"; "theorem"; "formula";
           "conclusion"; "summary"]%string.

(** The body of the loop of [score_sentences], for sentence [i] of [n]. *)
Definition sentence_score (word_freq : dict Q) (n i : nat) (sentence : str) : Q :=
  let words := findall word_pattern (lower sentence) in
  let score :=
    fold_left
      (fun score word =>
         match dict_get word word_freq with
         | Some f => (score + f)%Q
         | None => score
         end)
      words 0%Q in
  let score := if Qltb (of_nat i) (of_nat n * (2 # 10))%Q
    then (score * (13 # 10))%Q else score in
  let score :=
    if existsb (fun marker => contains marker (lower sentence)) markers
    then (score * (14 # 10))%Q else score in
  let score := if existsb is_digit sentence then (score * (12 # 10))%Q else score in
  let score := if length words <? 5 then (score * (5 # 10))%Q else score in
  let score := if 40 <? length words then (score * (8 # 10))%Q else score in
  score.

Fixpoint score_loop (word_freq : dict Q) (n i : nat) (rest : list str)
    (sentence_scores : dict Q) : dict Q :=
  match rest with
  | [] => sentence_scores
  | sentence :: rest' =>
      score_loop word_freq n (S i) rest'
        (dict_set sentence (sentence_score word_freq n i sentence)
                  sentence_scores)
  end.

Definition score_sentences (sentences : list str) (word_freq : dict Q) : dict Q :=
  score_loop word_freq (length sentences) 0 sentences [].

(** *** The summary *)

(** The dict returned by [generate_summary], without its ['formatted']
    report: the report opens with a header whose characters lie outside
    the range of the embedding, and no property below reads it. *)
Record Summary : Type := mkSummary {
  text : str;
  bullet_points : list str
}.

(** [sorted(top_sentences, key=lambda x: sentences.index(x[0]))]: the keys
    are computed first, then the items are sorted on them. *)
Definition sort_by_position (sentences : list str) (top : list (str * Q))
  : outcome (list (str * Q)) :=
  keyed <- map_outcome (fun x => i <- index sentences (fst x) ;; Ok (i, x)) top ;;
  Ok (map snd (sorted_by (fun a b => fst a <=? fst b) keyed)).

Definition generate_summary (text : str) (num_sentences : nat) : outcome Summary :=
  let sentences := split_into_sentences text in
  if length sentences <=? num_sentences then
    Ok (mkSummary text sentences)
  else
    word_freq <- calculate_word_frequency text ;;
    let sentence_scores := score_sentences sentences word_freq in
    let top_sentences :=
      firstn num_sentences
        (sorted_by (fun x y => Qle_bool (snd y) (snd x)) sentence_scores) in
    summary_sentences <- sort_by_position sentences top_sentences ;;
    let summary_text := join (lit " ") (map fst summary_sentences) in
    Ok (mkSummary summary_text (map fst summary_sentences)).

End Summarizer.

(** ** The [search_results] handler of [app.py] *)

Module App.
Import Py Search.

(** The part of the session the handler reads and writes. *)
Record session : Type := mkSession {
  session_text : option str;              (* [session['text']] *)
  recent_searches : option (list str)     (* [session['recent_searches']] *)
}.

Inductive response : Type :=
| Redirect (flash_message flash_category endpoint : str)
| Render (template query : str) (results : SearchResult)
         (recent : list str).

(** [request.form.get('query', '').strip()]. *)
Definition form_query (form : option str) : str :=
  strip (match form with Some q => q | None => [] end).

(** The handler; [None] only if the search loop ran out of fuel. *)
Definition search_results (s : session) (form : option str)
  : option (response * session) :=
  match session_text s with
  | None =>
      Some (Redirect (lit "Please upload a file first") (lit "warning")
                     (lit "index"), s)
  | Some text =>
      let query := form_query form in
      match query with
      | [] =>
          Some (Redirect (lit "Please enter a search query") (lit "warning")
                         (lit "search_page"), s)
      | _ :: _ =>
          let recent :=
            match recent_searches s with Some l => l | None => [] end in
          let recent :=
            if mem query recent then recent
            else firstn 5 (query :: recent) in
          match search_in_text text query default_context with
          | None => None
          | Some results =>
              Some (Render (lit "results.html") query results recent,
                    mkSession (Some text) (Some recent))
          end
      end
  end.

End App.

(** ** Readings of the specification, for comparison with the code *)

Module Spec.
Import Py Re Search Summarizer.


(** The marker with the words Page and Slide read without regard to
    case, as the specification words it. *)
Definition spec_marker_parse (s : str) : option (str * str) :=
  match expect (lit "---") s with
  | None => None
  | Some s1 =>
      let s2 := dropwhile is_space s1 in
      match
        if startswith (lit "page") (lower s2) then Some (skipn 4 s2)
        else if startswith (lit "slide") (lower s2) then Some (skipn 5 s2)
        else None
      with
      | None => None
      | Some s3 =>
          match takewhile is_space s3 with
          | [] => None
          | _ :: _ =>
              let s4 := dropwhile is_space s3 in
              match takewhile is_digit s4 with
              | [] => None
              | (_ :: _) as digits =>
                  let s5 := dropwhile is_space (dropwhile is_digit s4) in
                  match expect (lit "---") s5 with
                  | None => None
                  | Some rest => Some (digits, rest)
                  end
              end
          end
      end
  end.

Definition spec_page_marker : matcher :=
  fun _ s =>
    match spec_marker_parse s with
    | Some (_, rest) => Some (length s - length rest)
    | None => None
    end.

Definition spec_page_number (text : str) (position : nat) : option N :=
  let window := slice text (position - 500) position in
  let groups :=
    map (fun w => match spec_marker_parse w with
                  | Some (digits, _) => digits
                  | None => []
                  end)
        (findall spec_page_marker window) in
  match rev groups with
  | [] => None
  | last :: _ => Some (int_of_digits last)
  end.

(** Deleting every [<mark>] and [</mark>]: [re.sub('</?mark>', '', out)]. *)
Definition tag_pattern : matcher :=
  fun _ s =>
    if startswith (lit "<mark>") s then Some 6
    else if startswith (lit "</mark>") s then Some 7
    else None.

Definition strip_marks (out : str) : str := sub tag_pattern (fun _ => []) out.

(** The selection with one scored entry per position, as the
    specification words it. *)
Definition positional_scores (sentences : list str) (word_freq : dict Q)
  : list (nat * str * Q) :=
  map (fun '(i, sentence) =>
         (i, sentence, sentence_score word_freq (length sentences) i sentence))
      (combine (seq 0 (length sentences)) sentences).

Definition positional_summary (text : str) (num_sentences : nat)
  : outcome (list str) :=
  let sentences := split_into_sentences text in
  if length sentences <=? num_sentences then Ok sentences
  else
    word_freq <- calculate_word_frequency text ;;
    let top :=
      firstn num_sentences
        (sorted_by (fun x y => Qle_bool (snd y) (snd x))
                   (positional_scores sentences word_freq)) in
    Ok (map (fun e => snd (fst e))
            (sorted_by (fun a b => fst (fst a) <=? fst (fst b)) top)).

End Spec.

(** ** Notions used by the statements *)

Module Notions.
Import Py Re Search Summarizer.

(** The offsets from [from] on at which [query_lower] stands in
    [text_lower], in increasing order. *)
Definition occurrences (text_lower query_lower : str) (from : nat) : list nat :=
  filter (fun p => startswith query_lower (skipn p text_lower))
         (seq from (length text_lower + 1 - from)).

(** The character that opens both tags. *)
Definition lt_sign : ascii := "<"%char.

Definition str_eq_dec : forall a b : str, {a = b} + {a <> b} :=
  list_eq_dec ascii_dec.

(** The number of times [w] stands in [words]. *)
Definition occurrences_of (words : list str) (w : str) : nat :=
  count_occ str_eq_dec words w.

(** The count held by a counter for [w], 0 when it holds none. *)
Definition held (d : dict nat) (w : str) : nat :=
  match dict_get w d with
  | Some n => n
  | None => 0
  end.

(** The word counts of a text and their maximum, 1 when there are none. *)
Definition word_count_of (text : str) : dict nat := Counter (counted_words text).

Definition max_freq_of (text : str) : nat :=
  match word_count_of text with
  | [] => 1
  | _ :: _ => fold_right Nat.max 0 (values (word_count_of text))
  end.

(** The position given by [index], 0 when [index] raises. *)
Definition index_or_zero (l : list str) (x : str) : nat :=
  match index l x with
  | Ok i => i
  | Raise _ => 0
  end.

(** A text of three equal sentences. *)
Definition three_cats : str :=
  lit "The cat sat on the mat. The cat sat on the mat. The cat sat on the mat.".

(** [search_in_text] in closed form, for the default context. *)
Definition term_result (text term : str) : SearchResult :=
  mkResult
    (map (match_at text term default_context)
         (occurrences (lower text) (lower term) 0))
    (length (occurrences (lower text) (lower term) 0))
    term.

(** [is_marker w digits]: [w] is three dashes, spaces if any, the word
    Page or Slide, one space at least, the digits, spaces if any, and
    three dashes. *)
Definition is_marker (w digits : str) : Prop :=
  exists ws1 word ws2 ws3,
    w = lit "---" ++ ws1 ++ word ++ ws2 ++ digits ++ ws3 ++ lit "---"
    /\ (word = lit "Page" \/ word = lit "Slide")
    /\ forallb is_space ws1 = true
    /\ forallb is_space ws2 = true /\ ws2 <> []
    /\ forallb is_digit digits = true /\ digits <> []
    /\ forallb is_space ws3 = true.

(** [reads s ds]: a reading of [s] from left to right meets the markers
    whose digits are [ds], in that order; a marker is taken where it is
    met and the reading goes on after it; a character is passed only
    where no marker starts. *)
Inductive reads : str -> list str -> Prop :=
| reads_nil : reads [] []
| reads_marker (w digits s : str) (ds : list str) :
    is_marker w digits -> reads s ds -> reads (w ++ s) (digits :: ds)
| reads_char (c : ascii) (s : str) (ds : list str) :
    (forall w digits rest, c :: s = w ++ rest -> ~ is_marker w digits) ->
    reads s ds -> reads (c :: s) ds.

(** [stops f s]: a reading of [s] by [takewhile f] stops at once. *)
Definition stops (f : ascii -> bool) (s : str) : Prop :=
  match s with
  | [] => True
  | c :: _ => f c = false
  end.

(** [marked s out]: [out] is [s] with tags [<mark>] and [</mark>] put in
    between its characters. *)
Inductive marked : str -> str -> Prop :=
| marked_nil : marked [] []
| marked_char (c : ascii) (s out : str) :
    marked s out -> marked (c :: s) (c :: out)
| marked_open (s out : str) :
    marked s out -> marked s (lit "<mark>" ++ out)
| marked_close (s out : str) :
    marked s out -> marked s (lit "</mark>" ++ out).


End Notions.

(** ** More of the built-in operations *)

Module Builtins.
Import Py Summarizer.

(** [s.split()]: the stretches between runs of white space; [cur] is the
    stretch being read, in reverse. *)
Fixpoint split_ws_from (cur s : str) : list str :=
  match s with
  | [] =>
      match cur with
      | [] => []
      | _ :: _ => [rev cur]
      end
  | c :: s' =>
      if is_space c then
        match cur with
        | [] => split_ws_from [] s'
        | _ :: _ => rev cur :: split_ws_from [] s'
        end
      else split_ws_from (c :: cur) s'
  end.

Definition split_ws (s : str) : list str := split_ws_from [] s.

(** [s.split(sep)] for a one-character [sep]. *)
Fixpoint split_char_from (sep : ascii) (cur s : str) : list str :=
  match s with
  | [] => [rev cur]
  | c :: s' =>
      if Ascii.eqb c sep then rev cur :: split_char_from sep [] s'
      else split_char_from sep (c :: cur) s'
  end.

Definition split_char (sep : ascii) (s : str) : list str :=
  split_char_from sep [] s.

(** [s.rsplit(sep, 1)] for a one-character [sep]. *)
Definition rsplit1 (sep : ascii) (s : str) : list str :=
  if existsb (Ascii.eqb sep) s then
    let after := rev (takewhile (fun c => negb (Ascii.eqb c sep)) (rev s)) in
    [firstn (length s - length after - 1) s; after]
  else [s].

(** [l[i:j]] on a list. *)
Definition slice_list {A : Type} (l : list A) (i j : nat) : list A :=
  firstn (j - i) (skipn i l).

(** [range(start, stop, step)] for [0 <= step]: Python raises
    [ValueError] on a zero step and otherwise counts
    [(stop - start + step - 1) // step] values. *)
Fixpoint range_from (start step count : nat) : list nat :=
  match count with
  | 0 => []
  | S k => start :: range_from (start + step) step k
  end.

Definition range (start stop step : nat) : outcome (list nat) :=
  match step with
  | 0 => Raise ValueError
  | S _ => Ok (range_from start step ((stop - start + step - 1) / step))
  end.

(** A pattern made of one character class. *)
Definition char_class (f : ascii -> bool) : Re.matcher :=
  fun _ s =>
    match s with
    | c :: _ => if f c then Some 1 else None
    | [] => None
    end.

(** A non-empty literal, as [str.replace] looks for it. *)
Definition literal (p : str) : Re.matcher :=
  fun _ s => if startswith p s then Some (length p) else None.

(** [s.replace(old, new)] for a non-empty [old]. *)
Definition replace (old new s : str) : str :=
  Re.sub (literal old) (fun _ => new) s.

End Builtins.

(** ** The rest of [utils/search_utils.py] *)

Module SearchMore.
Import Py Re Search Summarizer Builtins.

(** [search_multiple_terms]; [None] only if a search ran out of fuel. *)
Definition search_multiple_terms (text : str) (queries : list str)
  : option (list SearchResult) :=
  search_each text queries.

(** One entry of the list returned by [fuzzy_search]. *)
Record FuzzyMatch : Type := mkFuzzy {
  fuzzy_word : str;
  fuzzy_position : nat;
  fuzzy_context : str
}.

(** The test of the loop of [fuzzy_search]. *)
Definition fuzzy_test (query_lower word : str) : bool :=
  let word_lower := lower word in
  contains query_lower word_lower || contains word_lower query_lower.

(** The loop [for i, word in enumerate(words)], from index [i] on. *)
Fixpoint fuzzy_loop (words : list str) (query_lower : str) (i : nat)
    (rest : list str) : list FuzzyMatch :=
  match rest with
  | [] => []
  | word :: rest' =>
      if fuzzy_test query_lower word then
        mkFuzzy word i
                (join (lit " ") (slice_list words (Nat.max 0 (i - 5)) (i + 6)))
          :: fuzzy_loop words query_lower (S i) rest'
      else fuzzy_loop words query_lower (S i) rest'
  end.

Definition fuzzy_search (text query : str) : list FuzzyMatch :=
  let words := split_ws text in
  let query_lower := lower query in
  fuzzy_loop words query_lower 0 words.

(** The stop words of [get_word_frequency]. *)
Definition stop_words : list str :=
  map lit
    ["the"; "a"; "an"; "and"; "or"; "but"; "in"; "on"; "at"; "to"; "for";
     "of"; "with"; "by"; "from"; "as"; "is"; "was"; "are"; "were"; "be";
     "been"; "being"; "have"; "has"; "had"; "do"; "does"; "did"; "will";
     "would"; "could"; "should"; "may"; "might"; "can"; "this"; "that";
     "these"; "those"; "i"; "you"; "he"; "she"; "it"; "we"; "they"]%string.

(** The words counted by [get_word_frequency]. *)
Definition frequency_words (text : str) : list str :=
  filter (fun word => negb (mem word stop_words))
         (findall word_pattern (lower text)).

Definition get_word_frequency (text : str) (top_n : nat) : list (str * nat) :=
  let word_freq := Counter (frequency_words text) in
  let sorted_words := sorted_by (fun x y => snd y <=? snd x) word_freq in
  firstn top_n sorted_words.

End SearchMore.

(** ** The rest of [utils/summarizer.py] *)

Module Notes.
Import Py Re Summarizer Builtins.

(** [word_count.most_common(n)]: the [n] greatest counts, the earlier
    entry first among equal counts. *)
Definition most_common (n : nat) (word_count : dict nat) : list (str * nat) :=
  firstn n (sorted_by (fun x y => snd y <=? snd x) word_count).

Definition extract_keywords (text : str) (top_n : nat) : list str :=
  let word_count := Counter (counted_words text) in
  let keywords :=
    map fst (filter (fun e => 1 <? snd e) (most_common (top_n * 2) word_count)) in
  firstn top_n keywords.

(** [chunk_text]; a zero [chunk_size] makes [range] raise. *)
Definition chunk_text (text : str) (chunk_size : nat) : outcome (list str) :=
  let words := split_ws text in
  starts <- range 0 (length words) chunk_size ;;
  Ok (map (fun i => join (lit " ") (slice_list words i (i + chunk_size))) starts).

End Notes.

(** ** [utils/extraction.py] *)

Module Extraction.
Import Py Re Summarizer Builtins.

Definition newline : ascii := ascii_of_nat 10.
Definition carriage_return : ascii := ascii_of_nat 13.
Definition space : ascii := ascii_of_nat 32.

(** The index of the last [c] of [s]. *)
Fixpoint last_index (c : ascii) (s : str) : option nat :=
  match s with
  | [] => None
  | a :: s' =>
      match last_index c s' with
      | Some i => Some (S i)
      | None => if Ascii.eqb a c then Some 0 else None
      end
  end.

(** The pattern [\n\s*\n]: a newline, then the white space that follows
    it up to its last newline. *)
Definition blank_lines : matcher :=
  fun _ s =>
    match s with
    | c :: s' =>
        if Ascii.eqb c newline then
          match last_index newline (takewhile is_space s') with
          | Some i => Some (i + 2)
          | None => None
          end
        else None
    | [] => None
    end.

(** The pattern [ +]. *)
Definition spaces : matcher :=
  fun _ s =>
    match takewhile (Ascii.eqb space) s with
    | [] => None
    | (_ :: _) as run => Some (length run)
    end.

(** The class [[\x00-\x08\x0b\x0c\x0e-\x1f\x7f-\x9f]]. *)
Definition is_control (c : ascii) : bool :=
  let n := code c in
  between 0 8 n || (n =? 11) || (n =? 12) || between 14 31 n
  || between 127 159 n.

Definition clean_text (text : str) : str :=
  let text := sub blank_lines (fun _ => [newline; newline]) text in
  let text := sub spaces (fun _ => [space]) text in
  let text := sub (char_class is_control) (fun _ => []) text in
  let text :=
    replace [carriage_return] [newline]
            (replace [carriage_return; newline] [newline] text) in
  strip text.

Definition nonempty (s : str) : bool :=
  match s with
  | [] => false
  | _ :: _ => true
  end.

(** [split_into_sentences] of this file. *)
Definition split_into_sentences (text : str) : list str :=
  let sentences := split sentence_break text in
  map strip (filter (fun s => nonempty (strip s)) sentences).

Definition split_into_lines (text : str) : list str :=
  let lines := split_char newline text in
  map strip (filter (fun line => nonempty (strip line)) lines).

(** The dict returned by [get_text_metadata]. *)
Record Metadata : Type := mkMetadata {
  word_count : nat;
  char_count : nat;
  line_count : nat;
  sentence_count : nat
}.

Definition get_text_metadata (text : str) : Metadata :=
  mkMetadata (length (split_ws text))
             (length text)
             (length (split_char newline text))
             (length (split_into_sentences text)).

End Extraction.

(** ** The upload check of [app.py] *)

Module Upload.
Import Py Builtins.

(** [app.config['ALLOWED_EXTENSIONS']]. *)
Definition ALLOWED_EXTENSIONS : list str :=
  map lit ["pdf"; "ppt"; "pptx"; "txt"]%string.

Definition dot : ascii := "."%char.

(** [allowed_file]; the second element of the split is read only when
    the name holds a dot, and is then there. *)
Definition allowed_file (filename : str) : bool :=
  existsb (Ascii.eqb dot) filename
  && mem (lower (nth 1 (rsplit1 dot filename) [])) ALLOWED_EXTENSIONS.

End Upload.

(** ** Notions used by the further statements *)

Module Shapes.
Import Py.

(** A word as [s.split()] yields them: not empty, without white space. *)
Definition is_token (w : str) : Prop :=
  w <> [] /\ forallb (fun c => negb (is_space c)) w = true.

(** The character of which markers are made. *)
Definition dash : ascii := "-"%char.

End Shapes.

(** ** Tokens, as the specification and as the pattern have them *)

Module Tokens.
Import Py Summarizer.

(** The maximal stretches of [s] whose characters all satisfy [f]; [cur]
    is the stretch being read, in reverse. *)
Fixpoint runs_from (f : ascii -> bool) (cur s : str) : list str :=
  match s with
  | [] =>
      match cur with
      | [] => []
      | _ :: _ => [rev cur]
      end
  | c :: s' =>
      if f c then runs_from f (c :: cur) s'
      else
        match cur with
        | [] => runs_from f [] s'
        | _ :: _ => rev cur :: runs_from f [] s'
        end
  end.

Definition runs (f : ascii -> bool) (s : str) : list str := runs_from f [] s.

(** The tokens in the words of the specification: the runs of ASCII
    letters of the lower-cased text that have three letters at least. *)
Definition letter_run_tokens (text : str) : list str :=
  filter (fun w => 3 <=? length w) (runs is_ascii_letter (lower text)).

(** A run of word characters that is a token: three characters at least,
    ASCII letters all of them. *)
Definition is_token_run (w : str) : bool :=
  (3 <=? length w) && forallb is_ascii_letter w.

(** The tokens between word boundaries: the maximal runs of word
    characters (letters, digits, underscore) of the lower-cased text that
    are made of ASCII letters only, three at least. *)
Definition bounded_tokens (text : str) : list str :=
  filter is_token_run (runs is_word (lower text)).

(** Leaving the stop words out. *)
Definition without_stop_words (words : list str) : list str :=
  filter (fun w => negb (mem w get_stop_words)) words.

End Tokens.

(** * Properties *)

(** ** Strings *)

Section StringFacts.
Import Py.

Lemma eqb_str_true (a b : str) : eqb_str a b = true <-> a = b.
Proof.
  unfold eqb_str. destruct (list_eq_dec ascii_dec a b); split; congruence.
Qed.

Lemma eqb_str_refl (a : str) : eqb_str a a = true.
Proof. now apply eqb_str_true. Qed.

Lemma eqb_str_false (a b : str) : eqb_str a b = false <-> a <> b.
Proof.
  unfold eqb_str. destruct (list_eq_dec ascii_dec a b); split; congruence.
Qed.


Lemma lower_skipn (n : nat) (s : str) : lower (skipn n s) = skipn n (lower s).
Proof. unfold lower. now rewrite skipn_map. Qed.


(** [startswith p s] says that [s] opens with [p]. *)
Lemma startswith_spec (p s : str) :
  startswith p s = true <-> firstn (length p) s = p /\ length p <= length s.
Proof.
  revert s. induction p as [|a p IH]; intros s; simpl.
  - split; [intros _; split; [reflexivity | lia] | reflexivity].
  - destruct s as [|b s]; simpl.
    + split; [discriminate | intros [_ H]; lia].
    + rewrite andb_true_iff, IH, Ascii.eqb_eq. split.
      * intros [-> [H1 H2]]. rewrite H1. split; [reflexivity | lia].
      * intros [H1 H2]. injection H1 as -> H1. repeat split; [assumption | lia].
Qed.

Lemma startswith_app (p s : str) : startswith p (p ++ s) = true.
Proof.
  induction p as [|a p IH]; simpl; [reflexivity|].
  now rewrite Ascii.eqb_refl.
Qed.

Lemma startswith_split (p s : str) :
  startswith p s = true -> s = p ++ skipn (length p) s.
Proof.
  intros H. apply startswith_spec in H as [H _].
  rewrite <- (firstn_skipn (length p) s) at 1. now rewrite H.
Qed.

Lemma occurs_startswith (sub s : str) (p : nat) :
  p <= length s ->
  (startswith sub (skipn p s) = true <-> occurs sub s p).
Proof.
  intros Hp. unfold occurs, slice. rewrite startswith_spec, length_skipn.
  replace (p + length sub - p) with (length sub) by lia.
  split; intros [H1 H2]; split; auto; lia.
Qed.

Lemma find0_some (s sub : str) (i : nat) :
  find0 s sub = Some i ->
  i <= length s /\ startswith sub (skipn i s) = true
  /\ forall j, j < i -> startswith sub (skipn j s) = false.
Proof.
  revert i. induction s as [|c s IH]; intros i; simpl.
  - destruct (startswith sub []) eqn:E; [|discriminate].
    intros [= <-]. repeat split; auto. intros j Hj; lia.
  - destruct (startswith sub (c :: s)) eqn:E.
    + intros [= <-]. repeat split; auto; [lia | intros j Hj; lia].
    + destruct (find0 s sub) as [k|] eqn:F; simpl; [|discriminate].
      intros [= <-]. destruct (IH k eq_refl) as (H1 & H2 & H3).
      repeat split; [lia | assumption |].
      intros [|j] Hj; simpl; [assumption | apply H3; lia].
Qed.

Lemma find0_none (s sub : str) :
  find0 s sub = None ->
  forall j, j <= length s -> startswith sub (skipn j s) = false.
Proof.
  induction s as [|c s IH]; simpl.
  - destruct (startswith sub []) eqn:E; [discriminate|].
    intros _ j Hj. now destruct j.
  - destruct (startswith sub (c :: s)) eqn:E; [discriminate|].
    destruct (find0 s sub) eqn:F; simpl; [discriminate|].
    intros _ [|j] Hj; simpl; [assumption | apply IH; [reflexivity | lia]].
Qed.

(** [s.find(sub, start)] is the lowest offset of [sub] from [start] on. *)
Lemma find_some (s sub : str) (start pos : nat) :
  find s sub start = Some pos ->
  start <= pos <= length s /\ startswith sub (skipn pos s) = true
  /\ forall j, start <= j < pos -> startswith sub (skipn j s) = false.
Proof.
  unfold find. destruct (start <=? length s) eqn:L; [|discriminate].
  apply Nat.leb_le in L.
  destruct (find0 (skipn start s) sub) as [i|] eqn:F; simpl; [|discriminate].
  intros [= <-]. apply find0_some in F as (H1 & H2 & H3).
  rewrite length_skipn in H1. rewrite skipn_skipn in H2.
  repeat split; [lia | lia | now rewrite Nat.add_comm |].
  intros j Hj. specialize (H3 (j - start) ltac:(lia)).
  rewrite skipn_skipn in H3. now replace (j - start + start) with j in H3 by lia.
Qed.

Lemma find_none (s sub : str) (start : nat) :
  find s sub start = None ->
  forall j, start <= j <= length s -> startswith sub (skipn j s) = false.
Proof.
  unfold find. destruct (start <=? length s) eqn:L.
  - apply Nat.leb_le in L.
    destruct (find0 (skipn start s) sub) as [i|] eqn:F; simpl; [discriminate|].
    intros _ j Hj. pose proof (find0_none _ _ F (j - start)) as H.
    rewrite length_skipn, skipn_skipn in H.
    replace (j - start + start) with j in H by lia. apply H. lia.
  - apply Nat.leb_gt in L. intros _ j Hj. lia.
Qed.

Lemma contains_false (sub s : str) :
  contains sub s = false ->
  forall j, startswith sub (skipn j s) = false.
Proof.
  unfold contains. destruct (find0 s sub) eqn:F; [discriminate|].
  intros _ j. destruct (Nat.le_gt_cases j (length s)) as [H|H].
  - now apply (find0_none _ _ F).
  - pose proof (find0_none _ _ F (length s) (Nat.le_refl _)) as H0.
    rewrite skipn_all in H0. now rewrite skipn_all2 by lia.
Qed.

End StringFacts.

(** ** The search loop *)

Section SearchLoop.
Import Py Re Search Notions.

Lemma filter_none {A : Type} (f : A -> bool) (l : list A) :
  (forall x, In x l -> f x = false) -> filter f l = [].
Proof.
  induction l as [|a l IH]; intros Hl; simpl; [reflexivity|].
  rewrite (Hl a (or_introl eq_refl)). apply IH. intros x Hx. apply Hl. now right.
Qed.

Lemma occurrences_nil (tl ql : str) (from : nat) :
  (forall j, from <= j <= length tl -> startswith ql (skipn j tl) = false) ->
  occurrences tl ql from = [].
Proof.
  intros H. unfold occurrences. apply filter_none.
  intros j Hj. apply in_seq in Hj. apply H. lia.
Qed.

Lemma occurrences_cons (tl ql : str) (from pos : nat) :
  from <= pos <= length tl ->
  startswith ql (skipn pos tl) = true ->
  (forall j, from <= j < pos -> startswith ql (skipn j tl) = false) ->
  occurrences tl ql from = pos :: occurrences tl ql (pos + 1).
Proof.
  intros Hpos Hhit Hmiss. unfold occurrences.
  replace (length tl + 1 - from)
    with ((pos - from) + S (length tl + 1 - (pos + 1))) by lia.
  rewrite seq_app, filter_app. replace (from + (pos - from)) with pos by lia.
  simpl seq. simpl filter. rewrite Hhit.
  replace (S pos) with (pos + 1) by lia.
  rewrite filter_none; [reflexivity|].
  intros j Hj. apply in_seq in Hj. apply Hmiss. lia.
Qed.

Lemma occurrences_In (tl ql : str) (from p : nat) :
  In p (occurrences tl ql from) <-> from <= p /\ occurs ql tl p.
Proof.
  unfold occurrences. rewrite filter_In, in_seq. split.
  - intros [H1 H2]. assert (Hp : p <= length tl) by lia.
    split; [lia | now apply occurs_startswith].
  - intros [H1 H2]. pose proof H2 as [H3 _].
    split; [lia | apply occurs_startswith; [lia | assumption]].
Qed.

Lemma occurrences_sorted (tl ql : str) (from : nat) :
  StronglySorted lt (occurrences tl ql from).
Proof.
  unfold occurrences. generalize (length tl + 1 - from) as n. intros n.
  revert from. induction n as [|n IH]; intros from; simpl; [constructor|].
  destruct (startswith ql (skipn from tl)); [|apply IH].
  constructor; [apply IH|].
  apply Forall_forall. intros x Hx. apply filter_In in Hx as [Hx _].
  apply in_seq in Hx. lia.
Qed.

(** The loop, started at [position] with enough fuel, appends one entry
    per occurrence from [position] on. *)
Lemma search_loop_occurrences (text query tl ql : str) (c : nat) :
  forall fuel position results n,
    position <= length tl + 1 ->
    length tl + 2 <= fuel + position ->
    search_loop fuel text query tl ql c position results n
    = Some (results
              ++ map (match_at text query c) (occurrences tl ql position),
            n + length (occurrences tl ql position)).
Proof.
  induction fuel as [|fuel IH]; intros position results n Hpos Hfuel.
  - lia.
  - simpl. destruct (find tl ql position) as [pos|] eqn:F.
    + apply find_some in F as (H1 & H2 & H3).
      rewrite IH by lia.
      rewrite (occurrences_cons _ _ position pos);
        [| lia | assumption | assumption].
      simpl. rewrite <- app_assoc. simpl. f_equal. f_equal. lia.
    + rewrite occurrences_nil.
      * simpl. now rewrite app_nil_r, Nat.add_0_r.
      * intros j Hj. apply (find_none _ _ _ F). lia.
Qed.

(** [search_in_text] in closed form. *)
Lemma search_in_text_eq (text query : str) (c : nat) :
  search_in_text text query c
  = Some (mkResult
            (map (match_at text query c)
                 (occurrences (lower text) (lower query) 0))
            (length (occurrences (lower text) (lower query) 0))
            query).
Proof.
  unfold search_in_text. rewrite search_loop_occurrences by lia. reflexivity.
Qed.

(** The fuel given to the loop is always enough. *)
Lemma search_in_text_returns (text query : str) (c : nat) :
  exists r, search_in_text text query c = Some r.
Proof. rewrite search_in_text_eq. eauto. Qed.

Lemma match_at_position (text query : str) (c p : nat) :
  position (match_at text query c p) = p.
Proof. reflexivity. Qed.

Lemma map_position_match_at (text query : str) (c : nat) (l : list nat) :
  map position (map (match_at text query c) l) = l.
Proof. rewrite map_map. simpl. apply map_id. Qed.

End SearchLoop.

(** ** Occurrences, lines and the empty query *)

Section SearchClaims.
Import Py Re Search App Notions.

Lemma occurrences_empty_query (tl : str) (from : nat) :
  occurrences tl [] from = seq from (length tl + 1 - from).
Proof.
  unfold occurrences. generalize (length tl + 1 - from) as n. intros n.
  revert from. induction n as [|n IH]; intros from; simpl; [reflexivity|].
  now rewrite IH.
Qed.

(** C4. For every text and query, [search_in_text] returns a result whose
    match positions are, from left to right and each once, exactly the
    offsets at which the lower-cased query stands in the lower-cased text,
    with no regard to overlaps between two occurrences; [count] is the
    number of matches.  In particular the query "aa" in "aaa" has exactly
    2 matches, at offsets 0 and 1. *)
Theorem search_reports_overlapping_occurrences :
  (forall (text query : str) (c : nat),
      exists r,
        search_in_text text query c = Some r
        /\ StronglySorted lt (map position (matches r))
        /\ (forall p, In p (map position (matches r))
                      <-> occurs (lower query) (lower text) p)
        /\ count r = length (matches r))
  /\ exists r,
      search_in_text (lit "aaa") (lit "aa") default_context = Some r
      /\ map position (matches r) = [0; 1]
      /\ count r = 2.
Proof.
  split.
  - intros text query c. rewrite search_in_text_eq. eexists. split; [reflexivity|].
    simpl. rewrite map_position_match_at.
    split; [apply occurrences_sorted|]. split; [|now rewrite length_map].
    intros p. rewrite occurrences_In. split; [tauto | intros H; split; [lia | exact H]].
  - eexists. split; [vm_compute; reflexivity|]. split; reflexivity.
Qed.

(** C8. For every text and query, each match returned by [search_in_text]
    has as [line_number] the number of newline characters before its
    position, plus 1.  In particular the first match of "query" in
    "a\nb\nquery\n" is on line 3. *)
Theorem search_line_number :
  (forall (text query : str) (c : nat),
      exists r,
        search_in_text text query c = Some r
        /\ Forall (fun m =>
                     line_number m
                     = count_char newline (firstn (position m) text) + 1)
                  (matches r))
  /\ exists r m rest,
      search_in_text
        (lit "a" ++ [newline] ++ lit "b" ++ [newline] ++ lit "query" ++ [newline])
        (lit "query") default_context = Some r
      /\ matches r = m :: rest
      /\ line_number m = 3.
Proof.
  split.
  - intros text query c. rewrite search_in_text_eq. eexists. split; [reflexivity|].
    simpl. apply Forall_forall. intros m Hm.
    apply in_map_iff in Hm as (p & <- & _). reflexivity.
  - do 3 eexists. split; [vm_compute; reflexivity|]. split; reflexivity.
Qed.

(** C1, as stated, fails: on the text "a" the empty query raises nothing;
    the call returns a result, with 2 matches, at offsets 0 and 1. *)
Lemma empty_query_returns_a_result :
  exists r,
    search_in_text (lit "a") [] default_context = Some r
    /\ map position (matches r) = [0; 1]
    /\ count r = 2.
Proof. eexists. split; [vm_compute; reflexivity|]. split; reflexivity. Qed.

(** C1, amended.  [search_in_text] validates nothing: for every text, the
    empty query returns a result with one match at each offset from 0 to
    the length of the lower-cased text, the text the loop scans (the length
    of the text itself whenever lower-casing keeps it).  The empty query is
    turned down by the caller: when the submitted query is empty once
    stripped, the [search_results] handler answers with the warning
    'Please enter a search query' and a redirect to the search page, and
    leaves the session as it was. *)
Theorem empty_query_turned_down_by_handler
    (text : str) (c : nat) (recent : option (list str)) (form : option str) :
  form_query form = [] ->
  search_results (mkSession (Some text) recent) form
  = Some (Redirect (lit "Please enter a search query") (lit "warning")
                   (lit "search_page"),
          mkSession (Some text) recent)
  /\ exists r,
      search_in_text text [] c = Some r
      /\ map position (matches r) = seq 0 (length (lower text) + 1)
      /\ count r = length (lower text) + 1.
Proof.
  intros Hq. split.
  - unfold search_results. simpl. now rewrite Hq.
  - rewrite search_in_text_eq. eexists. split; [reflexivity|]. simpl.
    rewrite map_position_match_at. change (lower []) with (@nil ascii).
    rewrite occurrences_empty_query, Nat.sub_0_r, length_seq.
    now split.
Qed.

Lemma empty_query_turned_down_by_handler_witness :
  form_query (Some (lit "  ")) = []
  /\ search_results (mkSession (Some (lit "a")) None) (Some (lit "  "))
     = Some (Redirect (lit "Please enter a search query") (lit "warning")
                      (lit "search_page"),
             mkSession (Some (lit "a")) None).
Proof.
  split; [reflexivity|].
  apply (empty_query_turned_down_by_handler (lit "a") 150 None (Some (lit "  "))).
  reflexivity.
Defined.

End SearchClaims.

(** ** The scan *)

Section ScanFacts.
Import Py Re.
Variable m : matcher.

(** The pieces of a scan make up the text that was scanned. *)
Lemma scan_text (s : str) :
  forall prev skip, text_of (scan m prev s skip) = skipn skip s.
Proof.
  induction s as [|c s IH]; intros prev skip.
  - simpl. destruct skip; [destruct (m prev []) |]; reflexivity.
  - destruct skip as [|k]; simpl.
    + destruct (m prev (c :: s)) as [[|k]|]; simpl.
      * now rewrite IH.
      * rewrite IH. now rewrite firstn_skipn.
      * now rewrite IH.
    + apply IH.
Qed.

Lemma pieces_text (s : str) : text_of (pieces m s) = s.
Proof. unfold pieces. now rewrite scan_text. Qed.

(** Passing [k] characters of a match leads to a scan of what follows. *)
Lemma scan_skip (s : str) :
  forall prev k, 0 < k <= length s ->
    exists prev', scan m prev s k = scan m prev' (skipn k s) 0.
Proof.
  induction s as [|c s IH]; intros prev k Hk; simpl in Hk; [lia|].
  destruct k as [|k]; [lia|]. simpl.
  destruct k as [|k]; [now exists (Some c)|].
  apply IH. lia.
Qed.

End ScanFacts.

(** ** Highlighting *)

Section Highlight.
Import Py Re Search Spec Notions.

Lemma marked_refl (s : str) : marked s s.
Proof. induction s; constructor; assumption. Qed.

Lemma marked_app (w s out : str) : marked s out -> marked (w ++ s) (w ++ out).
Proof. intros H. induction w; simpl; [assumption | now constructor]. Qed.

Lemma marked_mark (w s out : str) :
  marked s out -> marked (w ++ s) (mark w ++ out).
Proof.
  intros H. unfold mark. rewrite <- !app_assoc.
  apply marked_open, marked_app, marked_close, H.
Qed.

(** Whatever the pattern, [re.sub] with [mark] only puts tags in. *)
Lemma marked_sub_pieces (ps : list piece) :
  marked (text_of ps) (sub_pieces mark ps).
Proof.
  induction ps as [|[c|w] ps IH]; simpl.
  - constructor.
  - now constructor.
  - now apply marked_mark.
Qed.

Lemma highlight_text_marked (text query : str) :
  marked text (highlight_text text query).
Proof.
  unfold highlight_text, sub.
  rewrite <- (pieces_text (literal_ignorecase query) text) at 1.
  apply marked_sub_pieces.
Qed.

(** A reading of [out] that meets no [<] is a reading of [s]. *)
Lemma marked_startswith (s out : str) :
  marked s out ->
  forall t, ~ In lt_sign t -> startswith t out = true -> startswith t s = true.
Proof.
  induction 1 as [|c s out H IH|s out H IH|s out H IH]; intros t Ht Hs.
  - assumption.
  - destruct t as [|a t]; [reflexivity|]. simpl in *.
    apply andb_true_iff in Hs as [H1 H2]. rewrite H1. simpl.
    apply IH; [tauto | assumption].
  - destruct t as [|a t]; [now destruct s|]. simpl in Hs.
    apply andb_true_iff in Hs as [H1 _]. apply Ascii.eqb_eq in H1.
    exfalso. apply Ht. now left.
  - destruct t as [|a t]; [now destruct s|]. simpl in Hs.
    apply andb_true_iff in Hs as [H1 _]. apply Ascii.eqb_eq in H1.
    exfalso. apply Ht. now left.
Qed.

Lemma tag_not_at_char (t' : str) (c : ascii) (s out : str) :
  ~ In lt_sign t' ->
  marked s out ->
  startswith (lt_sign :: t') (c :: s) = false ->
  startswith (lt_sign :: t') (c :: out) = false.
Proof.
  intros Ht Hm Hs. destruct (startswith (lt_sign :: t') (c :: out)) eqn:E; [|reflexivity].
  simpl in E, Hs. apply andb_true_iff in E as [E1 E2].
  rewrite E1 in Hs. simpl in Hs.
  now rewrite (marked_startswith _ _ Hm t' Ht E2) in Hs.
Qed.

(** Deleting the tags of a marked text gives the text back, when the
    text holds no tag of its own. *)
Lemma strip_marks_marked (s out : str) :
  marked s out ->
  (forall j, startswith (lit "<mark>") (skipn j s) = false) ->
  (forall j, startswith (lit "</mark>") (skipn j s) = false) ->
  forall prev, sub_pieces (fun _ => []) (scan tag_pattern prev out 0) = s.
Proof.
  induction 1 as [|c s out H IH|s out H IH|s out H IH]; intros Ho Hc prev.
  - reflexivity.
  - assert (E1 : startswith (lit "<mark>") (c :: out) = false).
    { apply (tag_not_at_char (lit "mark>") c s out); [|assumption|apply (Ho 0)].
      simpl. unfold lt_sign. intuition discriminate. }
    assert (E2 : startswith (lit "</mark>") (c :: out) = false).
    { apply (tag_not_at_char (lit "/mark>") c s out); [|assumption|apply (Hc 0)].
      simpl. unfold lt_sign. intuition discriminate. }
    simpl scan. unfold tag_pattern at 1. rewrite E1, E2. simpl. f_equal.
    apply IH; intros j; [apply (Ho (S j)) | apply (Hc (S j))].
  - simpl. apply IH; assumption.
  - simpl. apply IH; assumption.
Qed.

(** C10. For every snippet and every non-empty query, neither of which
    contains "<mark>" or "</mark>", deleting every "<mark>" and "</mark>"
    from [highlight_text snippet query] gives the snippet back. *)
Theorem highlight_only_inserts_marks (snippet query : str) :
  query <> [] ->
  contains (lit "<mark>") snippet = false ->
  contains (lit "</mark>") snippet = false ->
  contains (lit "<mark>") query = false ->
  contains (lit "</mark>") query = false ->
  strip_marks (highlight_text snippet query) = snippet.
Proof.
  intros _ Ho Hc _ _. unfold strip_marks, sub, pieces.
  apply strip_marks_marked.
  - apply highlight_text_marked.
  - now apply contains_false.
  - now apply contains_false.
Qed.

Lemma highlight_only_inserts_marks_witness :
  highlight_text (lit "Hello world") (lit "O")
  = lit "Hell<mark>o</mark> w<mark>o</mark>rld"
  /\ strip_marks (highlight_text (lit "Hello world") (lit "O"))
     = lit "Hello world".
Proof.
  split; [reflexivity|].
  apply (highlight_only_inserts_marks (lit "Hello world") (lit "O"));
    [discriminate | reflexivity ..].
Defined.

End Highlight.

(** ** Snippets *)

Section Snippets.
Import Py Re Search Spec Notions.







End Snippets.

(** ** Page markers *)

Section PageMarkers.
Import Py Re Search Spec Notions.

Lemma takewhile_dropwhile (f : ascii -> bool) (s : str) :
  takewhile f s ++ dropwhile f s = s.
Proof.
  induction s as [|c s IH]; simpl; [reflexivity|].
  destruct (f c); simpl; [now rewrite IH | reflexivity].
Qed.

Lemma takewhile_all (f : ascii -> bool) (s : str) :
  forallb f (takewhile f s) = true.
Proof.
  induction s as [|c s IH]; simpl; [reflexivity|].
  destruct (f c) eqn:E; simpl; [now rewrite E | reflexivity].
Qed.

Lemma dropwhile_stops (f : ascii -> bool) (s : str) : stops f (dropwhile f s).
Proof.
  induction s as [|c s IH]; simpl; [exact I|].
  destruct (f c) eqn:E; [assumption | exact E].
Qed.

Lemma takewhile_app (f : ascii -> bool) (a b : str) :
  forallb f a = true -> stops f b -> takewhile f (a ++ b) = a.
Proof.
  intros Ha Hb. induction a as [|c a IH]; simpl in *.
  - destruct b as [|c b]; simpl in *; [reflexivity | now rewrite Hb].
  - apply andb_true_iff in Ha as [H1 H2]. rewrite H1. now rewrite IH.
Qed.

Lemma dropwhile_app (f : ascii -> bool) (a b : str) :
  forallb f a = true -> stops f b -> dropwhile f (a ++ b) = b.
Proof.
  intros Ha Hb. induction a as [|c a IH]; simpl in *.
  - destruct b as [|c b]; simpl in *; [reflexivity | now rewrite Hb].
  - apply andb_true_iff in Ha as [H1 H2]. rewrite H1. now apply IH.
Qed.

Lemma expect_app (p s : str) : expect p (p ++ s) = Some s.
Proof.
  unfold expect. rewrite startswith_app. f_equal.
  rewrite skipn_app, skipn_all, Nat.sub_diag. reflexivity.
Qed.

Lemma expect_some (p s r : str) : expect p s = Some r -> s = p ++ r.
Proof.
  unfold expect. destruct (startswith p s) eqn:E; [|discriminate].
  intros [= <-]. now apply startswith_split.
Qed.

Lemma digit_not_space (c : ascii) : is_digit c = true -> is_space c = false.
Proof.
  unfold is_digit, is_space, between. generalize (code c) as n. intros n H.
  apply andb_true_iff in H as [H1 H2].
  apply Nat.leb_le in H1. apply Nat.leb_le in H2.
  repeat match goal with
         | |- context [?a <=? ?b] => destruct (Nat.leb_spec a b); try lia
         | |- context [?a =? ?b] => destruct (Nat.eqb_spec a b); try lia
         end; reflexivity.
Qed.

Lemma space_not_digit (c : ascii) : is_space c = true -> is_digit c = false.
Proof.
  intros H. destruct (is_digit c) eqn:E; [|reflexivity].
  apply digit_not_space in E. congruence.
Qed.

Lemma stops_space_digits (d rest : str) :
  forallb is_digit d = true -> d <> [] -> stops is_space (d ++ rest).
Proof.
  destruct d as [|c d]; [congruence|]. simpl. intros H _.
  apply andb_true_iff in H as [H _]. now apply digit_not_space.
Qed.

Lemma stops_digit_spaces (ws rest : str) :
  forallb is_space ws = true -> stops is_digit rest ->
  stops is_digit (ws ++ rest).
Proof.
  destruct ws as [|c ws]; [trivial|]. simpl. intros H _.
  apply andb_true_iff in H as [H _]. now apply space_not_digit.
Qed.

(** A marker is read as such, whatever follows it. *)
Lemma marker_parse_complete (w digits rest : str) :
  is_marker w digits -> marker_parse (w ++ rest) = Some (digits, rest).
Proof.
  intros (ws1 & word & ws2 & ws3 & -> & Hword & H1 & H2 & N2 & Hd & Nd & H3).
  unfold marker_parse. rewrite <- !app_assoc. rewrite expect_app.
  assert (Hdash : forall x, stops is_space (lit "---" ++ x)) by reflexivity.
  assert (Hdash' : forall x, stops is_digit (lit "---" ++ x)) by reflexivity.
  assert (E : forall x,
             match expect (lit "Page") (word ++ x) with
             | Some r => Some r
             | None => expect (lit "Slide") (word ++ x)
             end = Some x).
  { intros x. destruct Hword as [-> | ->]; reflexivity. }
  rewrite dropwhile_app; [|assumption|destruct Hword as [-> | ->]; reflexivity].
  cbv zeta. rewrite E.
  rewrite takewhile_app; [|assumption|now apply stops_space_digits].
  destruct ws2 as [|a ws2]; [congruence|].
  rewrite dropwhile_app; [|assumption|now apply stops_space_digits].
  rewrite takewhile_app;
    [|assumption|apply stops_digit_spaces; [assumption | apply Hdash']].
  destruct digits as [|b digits]; [congruence|].
  rewrite (dropwhile_app is_digit);
    [|assumption|apply stops_digit_spaces; [assumption | apply Hdash']].
  rewrite dropwhile_app; [|assumption|apply Hdash].
  now rewrite expect_app.
Qed.

(** What is read as a marker is one. *)
Lemma marker_parse_sound (s digits rest : str) :
  marker_parse s = Some (digits, rest) ->
  exists w, s = w ++ rest /\ is_marker w digits.
Proof.
  unfold marker_parse.
  destruct (expect (lit "---") s) as [s1|] eqn:E1; [|discriminate].
  apply expect_some in E1.
  pose proof (takewhile_dropwhile is_space s1) as D1.
  pose proof (takewhile_all is_space s1) as A1.
  remember (dropwhile is_space s1) as s2 eqn:Q2. clear Q2.
  remember (takewhile is_space s1) as ws1 eqn:Q1. clear Q1.
  cbv zeta.
  assert (Hw : forall s3,
             match expect (lit "Page") s2 with
             | Some r => Some r
             | None => expect (lit "Slide") s2
             end = Some s3 ->
             exists word, s2 = word ++ s3
                          /\ (word = lit "Page" \/ word = lit "Slide")).
  { intros s3. destruct (expect (lit "Page") s2) as [r|] eqn:EP.
    - intros [= ->]. apply expect_some in EP. eauto.
    - intros ES. apply expect_some in ES. eauto. }
  destruct (match expect (lit "Page") s2 with
            | Some r => Some r
            | None => expect (lit "Slide") s2
            end) as [s3|]; [|discriminate].
  destruct (Hw s3 eq_refl) as (word & E2 & Hword). clear Hw.
  cbv zeta.
  pose proof (takewhile_dropwhile is_space s3) as D3.
  pose proof (takewhile_all is_space s3) as A3.
  remember (dropwhile is_space s3) as s4 eqn:Q4. clear Q4.
  destruct (takewhile is_space s3) as [|a ws2]; [discriminate|].
  pose proof (takewhile_dropwhile is_digit s4) as D4.
  pose proof (takewhile_all is_digit s4) as A4.
  remember (dropwhile is_digit s4) as s5 eqn:Q5. clear Q5.
  destruct (takewhile is_digit s4) as [|b ds]; [discriminate|].
  pose proof (takewhile_dropwhile is_space s5) as D5.
  pose proof (takewhile_all is_space s5) as A5.
  remember (dropwhile is_space s5) as s6 eqn:Q6. clear Q6.
  remember (takewhile is_space s5) as ws3 eqn:Q7. clear Q7.
  destruct (expect (lit "---") s6) as [r|] eqn:E5; [|discriminate].
  apply expect_some in E5. intros [= <- <-].
  exists (lit "---" ++ ws1 ++ word ++ (a :: ws2) ++ (b :: ds) ++ ws3 ++ lit "---").
  split.
  - subst s s1 s2 s3 s4 s5 s6. rewrite <- !app_assoc. reflexivity.
  - exists ws1, word, (a :: ws2), ws3.
    repeat split; try assumption; discriminate.
Qed.

Lemma is_marker_length (w digits : str) : is_marker w digits -> 0 < length w.
Proof.
  intros (ws1 & word & ws2 & ws3 & -> & _). rewrite length_app. simpl. lia.
Qed.

Lemma page_group_marker (w digits : str) :
  is_marker w digits -> page_group w = digits.
Proof.
  intros H. unfold page_group.
  rewrite <- (app_nil_r w). now rewrite (marker_parse_complete w digits []).
Qed.

(** The scan of [re.findall] with the marker pattern is a reading. *)
Lemma scan_reads :
  forall n s prev,
    length s <= n ->
    reads s (map page_group (hits (scan page_marker prev s 0))).
Proof.
  induction n as [|n IH]; intros s prev Hn.
  - destruct s; [|simpl in Hn; lia]. simpl. constructor.
  - destruct s as [|c s]; [simpl; constructor|].
    simpl in Hn. simpl scan. unfold page_marker at 1.
    destruct (marker_parse (c :: s)) as [[digits rest]|] eqn:E.
    + destruct (marker_parse_sound _ _ _ E) as (w & Hs & Hw).
      pose proof (is_marker_length _ _ Hw) as Lw.
      assert (Hk : length (c :: s) - length rest = length w).
      { rewrite Hs, length_app. lia. }
      rewrite Hk. destruct (length w) as [|k] eqn:Lk; [lia|].
      assert (Hfirst : firstn (S k) (c :: s) = w).
      { rewrite Hs, <- Lk. rewrite firstn_app, Nat.sub_diag, firstn_all.
        simpl. apply app_nil_r. }
      assert (Hskip : skipn (S k) (c :: s) = rest).
      { rewrite Hs, <- Lk. rewrite skipn_app, Nat.sub_diag, skipn_all.
        reflexivity. }
      assert (Hrest : exists prev',
                 scan page_marker (Some c) s k = scan page_marker prev' rest 0).
      { rewrite <- Hskip. destruct k as [|k]; [now exists (Some c)|].
        apply (scan_skip page_marker s (Some c) (S k)).
        assert (length w <= length (c :: s)) by (rewrite Hs, length_app; lia).
        simpl in *. lia. }
      destruct Hrest as [prev' ->].
      cbv beta iota.
      change (c :: firstn k s) with (firstn (S k) (c :: s)). rewrite Hfirst.
      change (map page_group (hits (Hit w :: ?ps)))
        with (page_group w :: map page_group (hits ps)).
      rewrite (page_group_marker w digits Hw). rewrite Hs.
      apply reads_marker; [assumption|]. apply IH.
      assert (length (c :: s) = length w + length rest)
        by (rewrite Hs; apply length_app).
      simpl in *. lia.
    + change (map page_group (hits (Lit c :: ?ps)))
        with (map page_group (hits ps)).
      apply reads_char; [|apply IH; lia].
      intros w digits rest Hs Hw.
      rewrite Hs, (marker_parse_complete w digits rest Hw) in E. discriminate.
Qed.

(** [extract_page_number] takes the last marker of a reading of the 500
    characters before the position. *)
Lemma extract_page_number_reads (text : str) (position : nat) :
  exists ds,
    reads (slice text (position - 500) position) ds
    /\ extract_page_number text position
       = match rev ds with
         | [] => None
         | last :: _ => Some (int_of_digits last)
         end.
Proof.
  unfold extract_page_number. cbv zeta. rewrite Nat.max_0_l.
  eexists. split; [|reflexivity].
  unfold findall, pieces. apply (scan_reads _ _ None (Nat.le_refl _)).
Qed.

(** C3, as stated, fails: a marker written with a lower-case word is not
    taken, where the specification, comparing the word without regard to
    case, gives page 2. *)
Lemma lower_case_marker_not_taken :
  exists r m,
    search_in_text (lit "--- page 2 ---" ++ [newline] ++ lit "foo bar")
                   (lit "foo") default_context = Some r
    /\ matches r = [m]
    /\ position m = 15
    /\ page_number m = None
    /\ spec_page_number (lit "--- page 2 ---" ++ [newline] ++ lit "foo bar") 15
       = Some 2%N.
Proof.
  do 2 eexists. split; [vm_compute; reflexivity|].
  split; [reflexivity|]. split; [reflexivity|]. split; reflexivity.
Qed.

(** A text has one reading only. *)
Lemma reads_functional (s : str) (ds : list str) :
  reads s ds -> forall ds', reads s ds' -> ds = ds'.
Proof.
  induction 1 as [|w digits s ds Hw H IH|c s ds Hc H IH]; intros ds' H'.
  - inversion H' as [|w' d' s' ds0 Hw' H0 E|]; [reflexivity|].
    apply is_marker_length in Hw'.
    destruct w'; [simpl in Hw'; lia | discriminate].
  - remember (w ++ s) as t eqn:Et.
    destruct H' as [|w' d' s' ds0 Hw' H0|c' s' ds0 Hc' H0].
    + destruct w; [|discriminate].
      pose proof (is_marker_length _ _ Hw) as L. simpl in L. lia.
    + pose proof (marker_parse_complete w digits s Hw) as P.
      pose proof (marker_parse_complete w' d' s' Hw') as P'.
      assert (E : Some (d', s') = Some (digits, s)) by congruence.
      injection E as -> ->. f_equal. now apply IH.
    + exfalso. apply (Hc' w digits s); [congruence | exact Hw].
  - remember (c :: s) as t eqn:Et.
    destruct H' as [|w' d' s' ds0 Hw' H0|c' s' ds0 Hc' H0].
    + discriminate.
    + exfalso. apply (Hc w' d' s'); [congruence | exact Hw'].
    + injection Et as -> ->. now apply IH.
Qed.

(** C3, amended.  For every match returned by [search_in_text],
    [page_number] comes from the at most 500 characters before the match
    start, read from left to right: a marker is three dashes, optional
    white space, the word Page or Slide written exactly so, white space,
    digits N, optional white space and three dashes; a marker is taken
    where the reading meets it and the reading goes on after it, a
    character being passed only where no marker starts; the last marker
    taken gives [page_number] = N, and [page_number] is null when none is
    taken.  In particular the match of "foo" has page number 2 in
    "--- Page 2 ---\nfoo bar", 7 in "--- Slide 7 ---\nfoo bar", 2 after
    the markers of pages 1 and 2, and 1 in "--- Page 1 --- Page 2 ---\nfoo",
    where the second marker shares its dashes with the first. *)
Theorem page_number_from_last_marker :
  (forall (text query : str) (c : nat),
      exists r,
        search_in_text text query c = Some r
        /\ Forall
             (fun m =>
                exists ds,
                  reads (slice text (position m - 500) (position m)) ds
                  /\ page_number m
                     = match rev ds with
                       | [] => None
                       | last :: _ => Some (int_of_digits last)
                       end)
             (matches r))
  /\ (exists r m,
      search_in_text (lit "--- Page 2 ---" ++ [newline] ++ lit "foo bar")
                     (lit "foo") default_context = Some r
      /\ matches r = [m]
      /\ page_number m = Some 2%N)
  /\ (exists r m,
      search_in_text (lit "--- Slide 7 ---" ++ [newline] ++ lit "foo bar")
                     (lit "foo") default_context = Some r
      /\ matches r = [m]
      /\ page_number m = Some 7%N)
  /\ (exists r m,
      search_in_text
        (lit "--- Page 1 ---" ++ [newline] ++ lit "x" ++ [newline]
           ++ lit "--- Slide 2 ---" ++ [newline] ++ lit "foo")
        (lit "foo") default_context = Some r
      /\ matches r = [m]
      /\ page_number m = Some 2%N)
  /\ (exists r m,
      search_in_text
        (lit "--- Page 1 --- Page 2 ---" ++ [newline] ++ lit "foo")
        (lit "foo") default_context = Some r
      /\ matches r = [m]
      /\ page_number m = Some 1%N).
Proof.
  split.
  - intros text query c. rewrite search_in_text_eq. eexists.
    split; [reflexivity|].
    apply Forall_forall. intros m Hm.
    apply in_map_iff in Hm as (p & <- & _).
    rewrite match_at_position. apply extract_page_number_reads.
  - repeat split;
      (do 2 eexists; split; [vm_compute; reflexivity|]; split; reflexivity).
Qed.

End PageMarkers.

(** ** Boolean combination *)

Section Operators.
Import Py Re Search Notions.

Lemma search_in_text_term (text term : str) :
  search_in_text text term default_context = Some (term_result text term).
Proof. apply search_in_text_eq. Qed.

Lemma search_extend_eq (text : str) (terms : list str) :
  forall acc,
    search_extend text terms acc
    = Some (acc ++ concat (map matches (map (term_result text) terms))).
Proof.
  induction terms as [|term terms IH]; intros acc; simpl.
  - now rewrite app_nil_r.
  - rewrite search_in_text_term, IH. now rewrite <- app_assoc.
Qed.

Lemma term_results_Forall2 (text : str) (terms : list str) :
  Forall2 (fun term r => search_in_text text term default_context = Some r)
          terms (map (term_result text) terms).
Proof.
  induction terms as [|term terms IH]; simpl; constructor.
  - apply search_in_text_term.
  - assumption.
Qed.

Lemma term_results_count (text : str) (terms : list str) :
  length (concat (map matches (map (term_result text) terms)))
  = list_sum (map count (map (term_result text) terms)).
Proof.
  induction terms as [|term terms IH]; simpl; [reflexivity|].
  rewrite length_app, IH, length_map. reflexivity.
Qed.

(** C7. For every text and every query that takes the OR branch of
    [search_with_operators], the terms being the stripped stretches
    between the separators, the result is a single one whose matches are
    the concatenation, term after term, of the matches of each term, in
    the order in which each search found them, and whose [count] is the
    sum of the counts of the terms. *)
Theorem or_search_concatenates (text query : str) :
  contains (lit " AND ") (upper query) = false ->
  contains (lit " OR ") (upper query) = true ->
  exists rs,
    Forall2 (fun term r => search_in_text text term default_context = Some r)
            (map strip (split (spaced_word (lit "OR")) query)) rs
    /\ search_with_operators text query
       = Some (Single (mkResult (concat (map matches rs))
                                (list_sum (map count rs))
                                query)).
Proof.
  intros Hand Hor.
  exists (map (term_result text)
              (map strip (split (spaced_word (lit "OR")) query))).
  split; [apply term_results_Forall2|].
  unfold search_with_operators. rewrite Hand, Hor.
  rewrite search_extend_eq. simpl app. now rewrite term_results_count.
Qed.

Lemma or_search_concatenates_witness :
  exists rs,
    Forall2 (fun term r =>
               search_in_text (lit "a b a") term default_context = Some r)
            [lit "a"; lit "b"] rs
    /\ search_with_operators (lit "a b a") (lit "a or b")
       = Some (Single (mkResult (concat (map matches rs))
                                (list_sum (map count rs))
                                (lit "a or b"))).
Proof.
  apply (or_search_concatenates (lit "a b a") (lit "a or b")); reflexivity.
Defined.

(** The merged matches keep the order of the terms and are not sorted
    again by position: "a or b" on "a b a" gives the offsets 0, 4, 2. *)
Example or_search_keeps_term_order :
  exists r,
    search_with_operators (lit "a b a") (lit "a or b") = Some (Single r)
    /\ map position (matches r) = [0; 4; 2]
    /\ count r = 3.
Proof. eexists. split; [vm_compute; reflexivity|]. split; reflexivity. Qed.

End Operators.

(** ** Dicts and counters *)

Section Dicts.
Import Py Summarizer Notions.
Context {V : Type}.

Lemma dict_get_set_same (k : str) (v : V) (d : dict V) :
  dict_get k (dict_set k v d) = Some v.
Proof.
  induction d as [|[k' v'] d IH]; simpl.
  - now rewrite eqb_str_refl.
  - destruct (eqb_str k' k) eqn:E; simpl; rewrite E; [reflexivity | exact IH].
Qed.

Lemma dict_get_set_other (k k0 : str) (v : V) (d : dict V) :
  k0 <> k -> dict_get k0 (dict_set k v d) = dict_get k0 d.
Proof.
  intros Hk. induction d as [|[k' v'] d IH]; simpl.
  - destruct (eqb_str k k0) eqn:E; [|reflexivity].
    apply eqb_str_true in E. congruence.
  - destruct (eqb_str k' k) eqn:E; simpl.
    + apply eqb_str_true in E. subst k'.
      destruct (eqb_str k k0) eqn:E0; [|reflexivity].
      apply eqb_str_true in E0. congruence.
    + destruct (eqb_str k' k0); [reflexivity | exact IH].
Qed.

Lemma dict_get_In (k : str) (d : dict V) :
  In k (keys d) <-> exists v, dict_get k d = Some v.
Proof.
  induction d as [|[k' v'] d IH]; simpl.
  - split; [tauto | intros [v Hv]; discriminate].
  - destruct (eqb_str k' k) eqn:E.
    + apply eqb_str_true in E. split; [eauto | auto].
    + apply eqb_str_false in E. rewrite IH. split; [|auto].
      intros [H|H]; [congruence | assumption].
Qed.

Lemma dict_get_In_pair (k : str) (v : V) (d : dict V) :
  NoDup (keys d) -> In (k, v) d -> dict_get k d = Some v.
Proof.
  induction d as [|[k' v'] d IH]; simpl; [tauto|].
  intros Hnd [H|H].
  - injection H as -> ->. now rewrite eqb_str_refl.
  - inversion Hnd as [|x l Hx Hl]; subst.
    destruct (eqb_str k' k) eqn:E.
    + apply eqb_str_true in E. subst k'. exfalso. apply Hx.
      change k with (fst (k, v)). now apply in_map.
    + now apply IH.
Qed.

(** Setting a key keeps the keys in place; a new key goes last. *)
Lemma keys_dict_set (k : str) (v : V) (d : dict V) :
  keys (dict_set k v d) = if mem k (keys d) then keys d else keys d ++ [k].
Proof.
  unfold mem. induction d as [|[k' v'] d IH]; simpl; [reflexivity|].
  destruct (eqb_str k' k) eqn:E; simpl.
  - apply eqb_str_true in E. subst k'. now rewrite eqb_str_refl.
  - assert (E' : eqb_str k k' = false).
    { apply eqb_str_false. apply eqb_str_false in E. congruence. }
    rewrite E'. simpl. rewrite IH.
    destruct (existsb (eqb_str k) (keys d)); reflexivity.
Qed.

Lemma mem_In (k : str) (l : list str) : mem k l = true <-> In k l.
Proof.
  unfold mem. rewrite existsb_exists. split.
  - intros (x & Hx & E). apply eqb_str_true in E. now subst.
  - intros H. exists k. split; [assumption | apply eqb_str_refl].
Qed.

Lemma keys_dict_set_NoDup (k : str) (v : V) (d : dict V) :
  NoDup (keys d) -> NoDup (keys (dict_set k v d)).
Proof.
  intros H. rewrite keys_dict_set. destruct (mem k (keys d)) eqn:E; [assumption|].
  apply NoDup_app; [assumption | repeat constructor; simpl; tauto |].
  intros x Hx [<-|[]]. apply mem_In in Hx. congruence.
Qed.

Lemma keys_dict_set_In (k k0 : str) (v : V) (d : dict V) :
  In k0 (keys (dict_set k v d)) <-> k0 = k \/ In k0 (keys d).
Proof.
  rewrite keys_dict_set. destruct (mem k (keys d)) eqn:E.
  - apply mem_In in E. split; [auto | intros [->|H]; assumption].
  - rewrite in_app_iff. simpl. intuition.
Qed.

End Dicts.

Section Counters.
Import Py Summarizer Notions.

Lemma held_counter_add (d : dict nat) (w w0 : str) :
  held (counter_add d w) w0
  = held d w0 + (if str_eq_dec w w0 then 1 else 0).
Proof.
  unfold held, counter_add.
  destruct (str_eq_dec w w0) as [<-|Hne].
  - destruct (dict_get w d) as [n|] eqn:E; rewrite dict_get_set_same; lia.
  - destruct (dict_get w d) as [n|] eqn:E;
      rewrite dict_get_set_other by congruence; lia.
Qed.

Lemma keys_counter_add_NoDup (d : dict nat) (w : str) :
  NoDup (keys d) -> NoDup (keys (counter_add d w)).
Proof.
  intros H. unfold counter_add.
  destruct (dict_get w d); now apply keys_dict_set_NoDup.
Qed.

Lemma keys_counter_add_In (d : dict nat) (w w0 : str) :
  In w0 (keys (counter_add d w)) <-> w0 = w \/ In w0 (keys d).
Proof.
  unfold counter_add. destruct (dict_get w d); apply keys_dict_set_In.
Qed.

Lemma counter_fold (words : list str) :
  forall d,
    NoDup (keys d) ->
    let d' := fold_left counter_add words d in
    NoDup (keys d')
    /\ (forall w, held d' w = held d w + occurrences_of words w)
    /\ (forall w, In w (keys d') <-> In w words \/ In w (keys d)).
Proof.
  induction words as [|x words IH]; intros d Hd; simpl.
  - split; [exact Hd|]. split; [intros w; unfold occurrences_of; simpl; lia|].
    intros w. tauto.
  - destruct (IH (counter_add d x) (keys_counter_add_NoDup d x Hd))
      as (H1 & H2 & H3).
    split; [exact H1|]. split.
    + intros w. rewrite H2, held_counter_add. unfold occurrences_of. simpl.
      destruct (str_eq_dec x w); lia.
    + intros w. rewrite H3, keys_counter_add_In. intuition.
Qed.

(** [Counter(words)] holds each word once, with the number of times it
    stands in [words]. *)
Lemma Counter_spec (words : list str) :
  NoDup (keys (Counter words))
  /\ Forall (fun '(w, n) => n = occurrences_of words w /\ 0 < n) (Counter words)
  /\ (forall w, In w (keys (Counter words)) <-> In w words).
Proof.
  destruct (counter_fold words [] (NoDup_nil _)) as (H1 & H2 & H3).
  fold (Counter words) in *. split; [exact H1|]. split.
  - apply Forall_forall. intros [w n] Hin.
    pose proof (dict_get_In_pair w n _ H1 Hin) as Hget.
    specialize (H2 w). unfold held in H2. rewrite Hget in H2. simpl in H2.
    split; [exact H2|]. subst n.
    assert (Hw : In w words).
    { pose proof (in_map fst _ _ Hin) as Hk. apply H3 in Hk as [H|[]]. exact H. }
    unfold occurrences_of. now apply count_occ_In.
  - intros w. rewrite H3. simpl. tauto.
Qed.

End Counters.

(** ** Tokens and word frequencies *)

Section Frequencies.
Import Py Re Summarizer Notions.

(** Every match of a scan is what its matcher measured at some offset. *)
Lemma scan_hits_In (m : matcher) (w : str) (s : str) :
  forall prev skip,
    In w (hits (scan m prev s skip)) ->
    exists i prev' k, m prev' (skipn i s) = Some k /\ w = firstn k (skipn i s).
Proof.
  induction s as [|c s IH]; intros prev skip Hin.
  - simpl in Hin. destruct skip; [|contradiction].
    destruct (m prev []) as [k|] eqn:E; [|contradiction].
    destruct Hin as [<-|[]]. exists 0, prev, k. split; [exact E|].
    now rewrite firstn_nil.
  - destruct skip as [|skip]; simpl in Hin.
    + destruct (m prev (c :: s)) as [[|k]|] eqn:E; simpl in Hin.
      * destruct Hin as [<-|Hin]; [now exists 0, prev, 0|].
        destruct (IH _ _ Hin) as (i & p & k & H1 & H2). now exists (S i), p, k.
      * destruct Hin as [<-|Hin]; [now exists 0, prev, (S k)|].
        destruct (IH _ _ Hin) as (i & p & k' & H1 & H2). now exists (S i), p, k'.
      * destruct (IH _ _ Hin) as (i & p & k & H1 & H2). now exists (S i), p, k.
    + destruct (IH _ _ Hin) as (i & p & k & H1 & H2). now exists (S i), p, k.
Qed.

Lemma firstn_takewhile (f : ascii -> bool) (s : str) :
  firstn (length (takewhile f s)) s = takewhile f s.
Proof.
  induction s as [|c s IH]; simpl; [reflexivity|].
  destruct (f c); simpl; [now rewrite IH | reflexivity].
Qed.

Lemma takewhile_incl (f : ascii -> bool) (s : str) :
  incl (takewhile f s) s.
Proof.
  induction s as [|c s IH]; simpl; [apply incl_refl|].
  destruct (f c); [|apply incl_nil_l].
  intros x [<-|Hx]; [now left | right; now apply IH].
Qed.

Lemma skipn_incl {A : Type} (n : nat) (l : list A) : incl (skipn n l) l.
Proof.
  intros x Hx. rewrite <- (firstn_skipn n l). apply in_or_app. now right.
Qed.

(** A letter of a lower-cased text is a lower-case letter. *)
Lemma lower_char_letter (c : ascii) :
  is_ascii_letter (lower_char c) = true -> is_ascii_lower (lower_char c) = true.
Proof.
  destruct c as [[] [] [] [] [] [] [] []]; vm_compute; intros H;
    first [reflexivity | discriminate H].
Qed.

(** The tokens of a lower-cased text are runs of three lower-case letters
    at least. *)
Lemma findall_word_pattern_shape (text w : str) :
  In w (findall word_pattern (lower text)) ->
  3 <= length w /\ forallb is_ascii_lower w = true.
Proof.
  intros Hin. unfold findall, pieces in Hin.
  apply scan_hits_In in Hin as (i & prev & k & Hm & ->).
  unfold word_pattern in Hm. cbv zeta in Hm.
  set (rest := skipn i (lower text)) in *.
  destruct ((3 <=? length (takewhile is_ascii_letter rest))
            && negb (is_word_opt prev)
            && negb (is_word_opt
                       (hd_error
                          (skipn (length (takewhile is_ascii_letter rest)) rest))))
    eqn:E; [|discriminate].
  injection Hm as <-. rewrite firstn_takewhile.
  apply andb_true_iff in E as [E _]. apply andb_true_iff in E as [E _].
  apply Nat.leb_le in E. split; [exact E|].
  apply forallb_forall. intros x Hx.
  pose proof (takewhile_all is_ascii_letter rest) as Hall.
  rewrite forallb_forall in Hall. specialize (Hall x Hx).
  apply takewhile_incl, skipn_incl in Hx.
  apply in_map_iff in Hx as (c & <- & _). now apply lower_char_letter.
Qed.

Lemma counted_words_shape (text : str) :
  Forall (fun w =>
            3 <= length w
            /\ forallb is_ascii_lower w = true
            /\ mem w get_stop_words = false)
         (counted_words text).
Proof.
  apply Forall_forall. intros w Hw. unfold counted_words in Hw.
  apply filter_In in Hw as [H1 H2].
  apply findall_word_pattern_shape in H1 as [H1 H3].
  apply negb_true_iff in H2. auto.
Qed.

Lemma max_values_bound (l : list nat) :
  Forall (fun x => x <= fold_right Nat.max 0 l) l.
Proof.
  induction l as [|a l IH]; simpl; constructor; [lia|].
  eapply Forall_impl; [|exact IH]. simpl. intros x Hx. lia.
Qed.

Lemma max_values_In (l : list nat) :
  l <> [] -> In (fold_right Nat.max 0 l) l.
Proof.
  induction l as [|a l IH]; [congruence|]. intros _. simpl.
  destruct l as [|b l]; [left; simpl; lia|].
  destruct (Nat.max_spec a (fold_right Nat.max 0 (b :: l))) as [[_ ->]|[_ ->]].
  - right. apply IH. discriminate.
  - now left.
Qed.

Lemma map_outcome_Ok {A B : Type} (f : A -> outcome B) (g : A -> B)
    (l : list A) :
  Forall (fun a => f a = Ok (g a)) l -> map_outcome f l = Ok (map g l).
Proof.
  induction 1 as [|a l Ha Hl IH]; simpl; [reflexivity|].
  now rewrite Ha, IH.
Qed.

Lemma Qmake_self (n : nat) : 0 < n -> (Z.of_nat n # Pos.of_nat n == 1)%Q.
Proof.
  intros Hn. unfold Qeq. simpl.
  rewrite Z.mul_1_r, <- (positive_nat_Z (Pos.of_nat n)), Nat2Pos.id by lia.
  reflexivity.
Qed.

Lemma max_freq_of_pos (text : str) : 0 < max_freq_of text.
Proof.
  unfold max_freq_of. destruct (word_count_of text) as [|[w n] d] eqn:E; [lia|].
  destruct (Counter_spec (counted_words text)) as (_ & H & _).
  fold (word_count_of text) in H. rewrite E in H.
  apply Forall_inv in H. destruct H as [_ Hn]. simpl. lia.
Qed.

(** [calculate_word_frequency] in closed form: no division fails. *)
Lemma calculate_word_frequency_eq (text : str) :
  calculate_word_frequency text
  = Ok (map (fun '(w, n) => (w, Z.of_nat n # Pos.of_nat (max_freq_of text)))
            (word_count_of text)).
Proof.
  unfold calculate_word_frequency. cbv zeta.
  fold (word_count_of text). fold (max_freq_of text).
  apply map_outcome_Ok. apply Forall_forall. intros [w n] _.
  pose proof (max_freq_of_pos text) as Hpos.
  destruct (max_freq_of text); [lia | reflexivity].
Qed.

End Frequencies.

(** ** The tokens of the word pattern *)

Section TokenRuns.
Import Py Re Summarizer Notions Tokens.

Lemma runs_from_app (f : ascii -> bool) (run : str) :
  forallb f run = true ->
  forall cur rest, runs_from f cur (run ++ rest) = runs_from f (rev run ++ cur) rest.
Proof.
  induction run as [|c run IH]; intros H cur rest; [reflexivity|].
  simpl in H. apply andb_true_iff in H as [Hc H]. simpl. rewrite Hc, IH by assumption.
  now rewrite <- app_assoc.
Qed.

Lemma letter_is_word (c : ascii) : is_ascii_letter c = true -> is_word c = true.
Proof. intros H. unfold is_word. now rewrite H. Qed.

Lemma stops_word_letter (rest : str) :
  stops is_word rest -> stops is_ascii_letter rest.
Proof.
  destruct rest as [|c rest]; [trivial|]. simpl. intros H.
  destruct (is_ascii_letter c) eqn:E; [|reflexivity].
  apply letter_is_word in E. congruence.
Qed.

Lemma word_pattern_after_word (prev : option ascii) (s : str) :
  is_word_opt prev = true -> word_pattern prev s = None.
Proof.
  intros H. unfold word_pattern. cbv zeta. rewrite H. simpl.
  now rewrite andb_false_r.
Qed.

Lemma word_pattern_stops (prev : option ascii) (s : str) :
  stops is_ascii_letter s -> word_pattern prev s = None.
Proof.
  intros H. unfold word_pattern. cbv zeta.
  destruct s as [|c s]; [reflexivity|]. simpl in H. simpl takewhile.
  now rewrite H.
Qed.

(** The scan looks at the character before only to know whether it is a
    word character. *)
Lemma scan_word_pattern_prev (prev prev' : option ascii) (s : str) :
  is_word_opt prev = is_word_opt prev' ->
  scan word_pattern prev s 0 = scan word_pattern prev' s 0.
Proof.
  intros H.
  assert (E : word_pattern prev s = word_pattern prev' s)
    by (unfold word_pattern; now rewrite H).
  destruct s as [|c s]; [reflexivity|]. simpl scan. now rewrite E.
Qed.

(** After a run of word characters the scan goes on behind the character
    that ends it. *)
Lemma scan_after_run (prev : option ascii) (rest : str) :
  stops is_word rest ->
  hits (scan word_pattern prev rest 0) = hits (scan word_pattern None (tl rest) 0).
Proof.
  intros H. pose proof (word_pattern_stops prev rest (stops_word_letter _ H)) as E.
  destruct rest as [|c rest]; [reflexivity|].
  simpl scan. rewrite E. simpl hits. simpl tl.
  f_equal. apply scan_word_pattern_prev. simpl in *. now rewrite H.
Qed.

(** Inside a run of word characters nothing is matched. *)
Lemma scan_inside_run (rest : str) :
  stops is_word rest ->
  forall run prev,
    is_word_opt prev = true -> forallb is_word run = true ->
    hits (scan word_pattern prev (run ++ rest) 0)
    = hits (scan word_pattern None (tl rest) 0).
Proof.
  intros Hrest. induction run as [|c run IH]; intros prev Hp Hrun.
  - now apply scan_after_run.
  - simpl in Hrun. apply andb_true_iff in Hrun as [Hc Hrun].
    simpl app. simpl scan. rewrite word_pattern_after_word by assumption.
    simpl hits. now apply IH.
Qed.

Lemma takewhile_split (f : ascii -> bool) (a : str) :
  forallb f a = true
  \/ exists l d r, a = l ++ d :: r /\ forallb f l = true /\ f d = false.
Proof.
  induction a as [|c a IH]; [now left|]. simpl.
  destruct (f c) eqn:E.
  - destruct IH as [H|(l & d & r & -> & H1 & H2)]; [now left|].
    right. exists (c :: l), d, r. simpl. rewrite E. auto.
  - right. now exists [], c, a.
Qed.

(** At the start of a run of word characters, the pattern matches the
    run when it is a token and nothing otherwise. *)
Lemma word_pattern_at_run (prev : option ascii) (run rest : str) :
  is_word_opt prev = false ->
  forallb is_word run = true -> stops is_word rest ->
  word_pattern prev (run ++ rest)
  = if is_token_run run then Some (length run) else None.
Proof.
  intros Hp Hrun Hrest. unfold word_pattern, is_token_run. cbv zeta.
  rewrite Hp. simpl negb. rewrite andb_true_r.
  destruct (takewhile_split is_ascii_letter run)
    as [Hall|(l & d & r & -> & Hl & Hd)].
  - rewrite Hall, andb_true_r.
    rewrite (takewhile_app _ run rest Hall (stops_word_letter _ Hrest)).
    rewrite skipn_app, skipn_all, Nat.sub_diag. simpl skipn. simpl app.
    assert (E : is_word_opt (hd_error rest) = false).
    { destruct rest; [reflexivity | exact Hrest]. }
    rewrite E. simpl. now rewrite andb_true_r.
  - assert (Hno : forallb is_ascii_letter (l ++ d :: r) = false).
    { rewrite forallb_app. simpl. rewrite Hd. now rewrite andb_false_r. }
    rewrite Hno, andb_false_r.
    rewrite <- app_assoc. simpl app.
    rewrite (takewhile_app _ l (d :: r ++ rest) Hl Hd).
    rewrite skipn_app, skipn_all, Nat.sub_diag. simpl.
    assert (Hw : is_word d = true).
    { rewrite forallb_app in Hrun. apply andb_true_iff in Hrun as [_ Hrun].
      simpl in Hrun. now apply andb_true_iff in Hrun as [Hrun _]. }
    rewrite Hw. simpl. now rewrite andb_false_r.
Qed.

(** From the start of a run of word characters to the character that
    ends it. *)
Lemma scan_at_run (prev : option ascii) (c : ascii) (run rest : str) :
  is_word_opt prev = false ->
  forallb is_word (c :: run) = true -> stops is_word rest ->
  hits (scan word_pattern prev ((c :: run) ++ rest) 0)
  = (if is_token_run (c :: run) then [c :: run] else [])
      ++ hits (scan word_pattern None (tl rest) 0).
Proof.
  intros Hp Hrun Hrest.
  pose proof (word_pattern_at_run prev (c :: run) rest Hp Hrun Hrest) as E.
  simpl app in *. simpl scan. rewrite E.
  simpl in Hrun. apply andb_true_iff in Hrun as [Hc Hrun].
  destruct (is_token_run (c :: run)).
  - simpl length. cbv beta iota.
    rewrite firstn_app, firstn_all, Nat.sub_diag. simpl firstn.
    rewrite app_nil_r. simpl hits. simpl app. f_equal.
    destruct run as [|a run].
    + simpl. now apply scan_after_run.
    + destruct (scan_skip word_pattern ((a :: run) ++ rest) (Some c)
                  (length (a :: run))) as [prev' ->].
      { rewrite length_app. simpl. lia. }
      rewrite skipn_app, skipn_all, Nat.sub_diag. simpl skipn. simpl app.
      now apply scan_after_run.
  - simpl hits. simpl app. now apply (scan_inside_run rest Hrest run (Some c)).
Qed.

Lemma runs_from_run (f : ascii -> bool) (c : ascii) (run rest : str) :
  forallb f (c :: run) = true -> stops f rest ->
  runs_from f [] ((c :: run) ++ rest) = (c :: run) :: runs_from f [] (tl rest).
Proof.
  intros Hrun Hrest. rewrite runs_from_app by assumption. rewrite app_nil_r.
  remember (rev (c :: run)) as cur eqn:Ec.
  assert (Hcur : rev cur = c :: run) by (subst cur; apply rev_involutive).
  clear Ec. destruct cur as [|a x]; [discriminate|].
  destruct rest as [|d rest]; cbn [runs_from tl].
  - now rewrite Hcur.
  - simpl in Hrest. now rewrite Hrest, Hcur.
Qed.

(** [re.findall] with the word pattern gives the maximal runs of word
    characters that are tokens. *)
Lemma findall_word_pattern_runs (s : str) :
  findall word_pattern s = filter is_token_run (runs is_word s).
Proof.
  unfold findall, pieces, runs.
  assert (G : forall n s, length s <= n ->
                hits (scan word_pattern None s 0)
                = filter is_token_run (runs_from is_word [] s)).
  { clear s. induction n as [|n IH]; intros s Hn.
    - destruct s; [reflexivity | simpl in Hn; lia].
    - destruct s as [|c s]; [reflexivity|]. simpl in Hn.
      destruct (is_word c) eqn:Hc.
      + pose proof (takewhile_dropwhile is_word s) as D.
        pose proof (takewhile_all is_word s) as A.
        pose proof (dropwhile_stops is_word s) as S.
        set (run := takewhile is_word s) in *.
        set (rest := dropwhile is_word s) in *.
        assert (Hrun : forallb is_word (c :: run) = true)
          by (simpl; now rewrite Hc).
        rewrite <- D. change (c :: run ++ rest) with ((c :: run) ++ rest).
        rewrite (scan_at_run None c run rest eq_refl Hrun S).
        rewrite (runs_from_run is_word c run rest Hrun S).
        simpl filter. rewrite IH.
        * destruct (is_token_run (c :: run)); reflexivity.
        * assert (length s = length run + length rest)
            by (rewrite <- D; apply length_app).
          destruct rest; simpl in *; lia.
      + rewrite (scan_after_run None (c :: s) Hc). simpl tl.
        simpl runs_from. rewrite Hc. apply IH. lia. }
  apply (G (length s)). lia.
Qed.

(** The words counted by [calculate_word_frequency] are the tokens
    between word boundaries, stop words left out. *)
Lemma counted_words_bounded (text : str) :
  counted_words text = without_stop_words (bounded_tokens text).
Proof.
  unfold counted_words, without_stop_words, bounded_tokens. cbv zeta.
  now rewrite findall_word_pattern_runs.
Qed.

End TokenRuns.

Section FrequencyClaim.
Import Py Re Summarizer Notions Tokens.

Lemma word_count_le_max (text : str) (w : str) (n : nat) :
  In (w, n) (word_count_of text) -> n <= max_freq_of text.
Proof.
  intros Hin. unfold max_freq_of.
  destruct (word_count_of text) as [|e d] eqn:E; [contradiction|].
  rewrite <- E in *. pose proof (max_values_bound (values (word_count_of text))) as H.
  rewrite Forall_forall in H. apply H. unfold values.
  change n with (snd (w, n)). now apply in_map.
Qed.

Lemma word_count_max_In (text : str) :
  word_count_of text <> [] ->
  exists w, In (w, max_freq_of text) (word_count_of text).
Proof.
  intros Hne. unfold max_freq_of.
  destruct (word_count_of text) as [|e d] eqn:E; [congruence|].
  rewrite <- E in *.
  assert (Hv : values (word_count_of text) <> []).
  { rewrite E. discriminate. }
  apply max_values_In in Hv. unfold values in Hv at 2.
  apply in_map_iff in Hv as ([w n] & Hn & Hin). simpl in Hn. subst n.
  now exists w.
Qed.

(** C9, as stated, fails: in "abc1" the letters "abc" are a run of three
    ASCII letters and no stop word, a qualifying token in the words of the
    specification, yet nothing is counted and the table is empty: the run
    touches a digit, so that no word boundary ends it. *)
Lemma letter_run_beside_digit_not_counted :
  without_stop_words (letter_run_tokens (lit "abc1")) = [lit "abc"]
  /\ calculate_word_frequency (lit "abc1") = Ok [].
Proof. split; reflexivity. Qed.

(** C9, amended.  For every text, [calculate_word_frequency] returns a
    table and raises no division error.  The tokens counted are the
    maximal runs of word characters (letters, digits, underscore) of the
    lower-cased text that are made of ASCII letters only, three at least,
    and are not stop words; a run of letters that touches a digit or an
    underscore is not counted.  The table holds each token once, with its
    count divided by the greatest count.  When there is at least one
    token, some word has the greatest count and its frequency is exactly 1;
    when there is none, the table is empty.  In particular
    "The cat and the dog: the cat sat." gives cat 2/2, dog 1/2 and sat 1/2,
    and "abc1 x_abc ab" and the empty text give the empty table. *)
Theorem word_frequency_normalised :
  (forall text : str,
      exists table max_count,
        calculate_word_frequency text = Ok table
        /\ NoDup (keys table)
        /\ (forall w, In w (keys table)
                      <-> In w (without_stop_words (bounded_tokens text)))
        /\ Forall (fun '(w, q) =>
                     q = (Z.of_nat (occurrences_of
                                      (without_stop_words (bounded_tokens text))
                                      w)
                          # Pos.of_nat max_count)
                     /\ 0 < occurrences_of
                              (without_stop_words (bounded_tokens text)) w
                        <= max_count)
                  table
        /\ match without_stop_words (bounded_tokens text) with
           | [] => table = []
           | _ :: _ =>
               exists w q,
                 In (w, q) table
                 /\ occurrences_of (without_stop_words (bounded_tokens text)) w
                    = max_count
                 /\ (q == 1)%Q
           end
        /\ Forall (fun w =>
                     3 <= length w
                     /\ forallb is_ascii_lower w = true
                     /\ mem w get_stop_words = false)
                  (without_stop_words (bounded_tokens text)))
  /\ calculate_word_frequency (lit "The cat and the dog: the cat sat.")
     = Ok [(lit "cat", (2 # 2)%Q); (lit "dog", (1 # 2)%Q); (lit "sat", (1 # 2)%Q)]
  /\ calculate_word_frequency (lit "abc1 x_abc ab") = Ok []
  /\ calculate_word_frequency [] = Ok [].
Proof.
  split; [|split; [|split]]; try reflexivity.
  intros text. rewrite <- counted_words_bounded.
  destruct (Counter_spec (counted_words text)) as (Hnd & Hcount & Hkeys).
  fold (word_count_of text) in *.
  set (g := fun e : str * nat =>
              let '(w, n) := e in
              (w, Z.of_nat n # Pos.of_nat (max_freq_of text))).
  assert (Hk : keys (map g (word_count_of text)) = keys (word_count_of text)).
  { unfold keys. rewrite map_map. apply map_ext. now intros [w n]. }
  exists (map g (word_count_of text)), (max_freq_of text).
  split; [apply calculate_word_frequency_eq|].
  split; [now rewrite Hk|]. split; [now rewrite Hk|]. split; [|split].
  - apply Forall_forall. intros [w q] Hin.
    apply in_map_iff in Hin as ([w' n] & Hg & Hin). injection Hg as -> <-.
    rewrite Forall_forall in Hcount. destruct (Hcount _ Hin) as [Hn Hpos].
    rewrite <- Hn. split; [reflexivity|]. split; [exact Hpos|].
    now apply (word_count_le_max text w).
  - destruct (counted_words text) as [|x ws] eqn:E.
    + unfold word_count_of. now rewrite E.
    + destruct (word_count_max_In text) as [w Hin].
      { intros Hnil. assert (Hx : In x (keys (word_count_of text)))
          by (apply Hkeys; now left).
        rewrite Hnil in Hx. contradiction. }
      exists w, (Z.of_nat (max_freq_of text) # Pos.of_nat (max_freq_of text)).
      split; [|split].
      * apply in_map_iff. now exists (w, max_freq_of text).
      * rewrite Forall_forall in Hcount. destruct (Hcount _ Hin) as [Hn _].
        now rewrite <- Hn.
      * apply Qmake_self, max_freq_of_pos.
  - apply counted_words_shape.
Qed.

End FrequencyClaim.

(** ** The summary *)

Section Summary.
Import Py Re Summarizer Spec Notions.

Lemma insert_by_perm {A : Type} (before : A -> A -> bool) (x : A) (l : list A) :
  Permutation (insert_by before x l) (x :: l).
Proof.
  induction l as [|y l IH]; simpl; [apply Permutation_refl|].
  destruct (before x y); [apply Permutation_refl|].
  eapply perm_trans; [apply perm_skip, IH | apply perm_swap].
Qed.

(** [sorted] permutes its input. *)
Lemma sorted_by_perm {A : Type} (before : A -> A -> bool) (l : list A) :
  Permutation (sorted_by before l) l.
Proof.
  induction l as [|x l IH]; simpl; [constructor|].
  eapply perm_trans; [apply insert_by_perm | now apply perm_skip].
Qed.

Lemma index_found (l : list str) (x : str) :
  In x l -> exists i, index l x = Ok i.
Proof.
  induction l as [|y l IH]; simpl; [tauto|].
  intros Hin. destruct (eqb_str y x) eqn:E; [now exists 0|].
  apply eqb_str_false in E. destruct Hin as [H|H]; [congruence|].
  destruct (IH H) as [i ->]. now exists (S i).
Qed.

Lemma index_In (l : list str) (x : str) :
  In x l -> index l x = Ok (index_or_zero l x).
Proof.
  intros H. unfold index_or_zero. now destruct (index_found l x H) as [i ->].
Qed.

(** Putting the selected items back in reading order raises nothing and
    permutes them, when each stands among the sentences. *)
Lemma sort_by_position_perm (sentences : list str) (top : list (str * Q)) :
  incl (map fst top) sentences ->
  exists res, sort_by_position sentences top = Ok res /\ Permutation res top.
Proof.
  intros Hincl. unfold sort_by_position.
  rewrite (map_outcome_Ok _ (fun x => (index_or_zero sentences (fst x), x))).
  - simpl. eexists. split; [reflexivity|].
    eapply perm_trans; [apply Permutation_map, sorted_by_perm|].
    rewrite map_map. simpl. rewrite map_id. apply Permutation_refl.
  - apply Forall_forall. intros x Hx.
    rewrite index_In; [reflexivity|]. apply Hincl. now apply in_map.
Qed.

(** The dict of scores holds each sentence text once. *)
Lemma score_loop_keys (word_freq : dict Q) (n : nat) (rest : list str) :
  forall i d,
    NoDup (keys d) ->
    NoDup (keys (score_loop word_freq n i rest d))
    /\ forall x, In x (keys (score_loop word_freq n i rest d))
                 <-> In x rest \/ In x (keys d).
Proof.
  induction rest as [|s rest IH]; intros i d Hd; simpl.
  - split; [exact Hd | intros x; tauto].
  - destruct (IH (S i) _ (keys_dict_set_NoDup s
                            (sentence_score word_freq n i s) d Hd)) as [H1 H2].
    split; [exact H1|]. intros x. rewrite H2, keys_dict_set_In. intuition.
Qed.

Lemma score_sentences_keys (sentences : list str) (word_freq : dict Q) :
  NoDup (keys (score_sentences sentences word_freq))
  /\ forall x, In x (keys (score_sentences sentences word_freq))
               <-> In x sentences.
Proof.
  unfold score_sentences.
  destruct (score_loop_keys word_freq (length sentences) sentences 0 []
              (NoDup_nil _)) as [H1 H2].
  split; [exact H1|]. intros x. rewrite H2. simpl. tauto.
Qed.

Lemma NoDup_firstn {A : Type} (n : nat) (l : list A) :
  NoDup l -> NoDup (firstn n l).
Proof.
  intros H. rewrite <- (firstn_skipn n l) in H.
  now apply NoDup_app_remove_r in H.
Qed.

Lemma firstn_incl {A : Type} (n : nat) (l : list A) : incl (firstn n l) l.
Proof.
  intros x Hx. rewrite <- (firstn_skipn n l). apply in_or_app. now left.
Qed.

(** C5. For every text and target count n, if the sentence split of the
    text has at most n sentences, [generate_summary] returns the text
    itself as the text of the summary, with the sentences of the split as
    bullet points; no score is computed. *)
Theorem summary_short_circuit (text : str) (n : nat) :
  length (split_into_sentences text) <= n ->
  generate_summary text n = Ok (mkSummary text (split_into_sentences text)).
Proof.
  intros H. unfold generate_summary. cbv zeta.
  apply Nat.leb_le in H. now rewrite H.
Qed.

Lemma summary_short_circuit_witness :
  length (split_into_sentences three_cats) <= 3
  /\ generate_summary three_cats 3
     = Ok (mkSummary three_cats (split_into_sentences three_cats)).
Proof.
  split; [vm_compute; lia|].
  apply (summary_short_circuit three_cats 3). vm_compute. lia.
Defined.

(** C2, as stated, fails: the text of three equal sentences, summarized
    to 2 sentences, has a single scored entry and a summary of one
    sentence, where a selection by position would keep two of the three
    occurrences. *)
Lemma repeated_sentence_collapsed :
  split_into_sentences three_cats
  = [lit "The cat sat on the mat."; lit "The cat sat on the mat.";
     lit "The cat sat on the mat."]
  /\ (exists word_freq,
         calculate_word_frequency three_cats = Ok word_freq
         /\ keys (score_sentences (split_into_sentences three_cats) word_freq)
            = [lit "The cat sat on the mat."])
  /\ generate_summary three_cats 2
     = Ok (mkSummary (lit "The cat sat on the mat.")
                     [lit "The cat sat on the mat."])
  /\ positional_summary three_cats 2
     = Ok [lit "The cat sat on the mat."; lit "The cat sat on the mat."].
Proof.
  split; [reflexivity|]. split.
  - eexists. split; vm_compute; reflexivity.
  - split; vm_compute; reflexivity.
Qed.

(** C2, amended.  For every text with more sentences than the target
    count n, [generate_summary] returns a summary and scores the sentences
    by their text, not by their position: the dict of scores holds each
    distinct sentence text once, all the occurrences of a text sharing that
    entry; the selected sentences are [min n d] of them, [d] being the
    number of distinct texts, each a sentence of the split and none
    repeated. *)
Theorem repeated_sentence_scored_once (text : str) (n : nat) :
  n < length (split_into_sentences text) ->
  exists word_freq s,
    calculate_word_frequency text = Ok word_freq
    /\ generate_summary text n = Ok s
    /\ NoDup (keys (score_sentences (split_into_sentences text) word_freq))
    /\ (forall x, In x (keys (score_sentences (split_into_sentences text)
                                              word_freq))
                  <-> In x (split_into_sentences text))
    /\ NoDup (bullet_points s)
    /\ incl (bullet_points s) (split_into_sentences text)
    /\ length (bullet_points s)
       = Nat.min n (length (keys (score_sentences (split_into_sentences text)
                                                  word_freq))).
Proof.
  intros Hn. eexists.
  set (sentences := split_into_sentences text) in *.
  unfold generate_summary. cbv zeta. fold sentences.
  replace (length sentences <=? n) with false by (symmetry; apply Nat.leb_gt; lia).
  rewrite calculate_word_frequency_eq. simpl bind.
  set (word_freq := map _ (word_count_of text)).
  destruct (score_sentences_keys sentences word_freq) as [Hnd Hin].
  set (scores := score_sentences sentences word_freq) in *.
  set (ranked := sorted_by (fun x y => Qle_bool (snd y) (snd x)) scores).
  assert (Hranked : Permutation (map fst ranked) (keys scores)).
  { apply Permutation_map, sorted_by_perm. }
  assert (Htop : incl (map fst (firstn n ranked)) sentences).
  { intros x Hx. apply Hin. eapply Permutation_in; [exact Hranked|].
    rewrite <- firstn_map in Hx. now apply firstn_incl in Hx. }
  destruct (sort_by_position_perm sentences (firstn n ranked) Htop)
    as (res & Hres & Hperm).
  rewrite Hres. simpl bind. eexists. split; [reflexivity|].
  split; [reflexivity|]. split; [exact Hnd|]. split; [exact Hin|].
  simpl bullet_points.
  assert (Hfst : Permutation (map fst res) (firstn n (map fst ranked))).
  { rewrite firstn_map. now apply Permutation_map. }
  split; [|split].
  - eapply Permutation_NoDup; [apply Permutation_sym, Hfst|].
    apply NoDup_firstn.
    eapply Permutation_NoDup; [apply Permutation_sym, Hranked | exact Hnd].
  - intros x Hx. apply Htop. rewrite <- firstn_map.
    eapply Permutation_in; [exact Hfst | exact Hx].
  - rewrite (Permutation_length Hfst), length_firstn.
    now rewrite (Permutation_length Hranked).
Qed.

Lemma repeated_sentence_scored_once_witness :
  2 < length (split_into_sentences three_cats)
  /\ exists s,
      generate_summary three_cats 2 = Ok s
      /\ NoDup (bullet_points s)
      /\ length (bullet_points s) <= 2.
Proof.
  split; [vm_compute; lia|].
  destruct (repeated_sentence_scored_once three_cats 2)
    as (wf & s & _ & Hs & _ & _ & Hnd & _ & Hlen); [vm_compute; lia|].
  exists s. split; [exact Hs|]. split; [exact Hnd|]. rewrite Hlen. apply Nat.le_min_l.
Defined.

End Summary.

(** ** Cleaning the extracted text *)

Section Cleaning.
Import Py Re Summarizer Builtins Extraction Notions.

Lemma sub_pieces_const_Forall (P : ascii -> Prop) (r : str) (ps : list piece) :
  Forall P (text_of ps) -> Forall P r ->
  Forall P (sub_pieces (fun _ => r) ps).
Proof.
  intros Hs Hr. induction ps as [|[c|w] ps IH]; simpl in *.
  - constructor.
  - inversion Hs; subst. constructor; auto.
  - apply Forall_app in Hs as [_ Hs]. apply Forall_app. auto.
Qed.

(** Replacing matches by a fixed string brings in no character that is
    neither in the text nor in that string. *)
Lemma sub_const_Forall (P : ascii -> Prop) (m : matcher) (r s : str) :
  Forall P s -> Forall P r -> Forall P (sub m (fun _ => r) s).
Proof.
  intros Hs Hr. unfold sub. apply sub_pieces_const_Forall; [|exact Hr].
  now rewrite pieces_text.
Qed.

(** Replacing every character of a class. *)
Lemma sub_one_char (m : matcher) (f : ascii -> bool) (r : str) :
  (forall prev s,
      m prev s = match s with
                 | c :: _ => if f c then Some 1 else None
                 | [] => None
                 end) ->
  forall s, sub m (fun _ => r) s = flat_map (fun c => if f c then r else [c]) s.
Proof.
  intros Hm s. unfold sub, pieces. generalize (@None ascii) as prev.
  induction s as [|c s IH]; intros prev; simpl.
  - now rewrite Hm.
  - rewrite Hm. destruct (f c); simpl; now rewrite IH.
Qed.

Lemma dropwhile_Forall (P : ascii -> Prop) (f : ascii -> bool) (s : str) :
  Forall P s -> Forall P (dropwhile f s).
Proof.
  induction 1 as [|c s Hc Hs IH]; simpl; [constructor|].
  destruct (f c); [exact IH | now constructor].
Qed.

Lemma strip_Forall (P : ascii -> Prop) (s : str) :
  Forall P s -> Forall P (strip s).
Proof.
  intros H. unfold strip. apply Forall_rev, dropwhile_Forall, Forall_rev.
  now apply dropwhile_Forall.
Qed.

Lemma dropwhile_keeps_last (f : ascii -> bool) (a : str) (c : ascii) :
  f c = false -> exists x, dropwhile f (a ++ [c]) = x ++ [c].
Proof.
  intros Hc. induction a as [|b a IH]; simpl.
  - rewrite Hc. now exists [].
  - destruct (f b); [exact IH | now exists (b :: a)].
Qed.

(** [s.strip()] neither starts nor ends with white space. *)
Lemma strip_stops (s : str) :
  stops is_space (strip s) /\ stops is_space (rev (strip s)).
Proof.
  unfold strip. split.
  - pose proof (dropwhile_stops is_space s) as H.
    destruct (dropwhile is_space s) as [|c d]; [exact I|].
    simpl in H. simpl rev.
    destruct (dropwhile_keeps_last is_space (rev d) c H) as [x ->].
    rewrite rev_app_distr. exact H.
  - rewrite rev_involutive. apply dropwhile_stops.
Qed.

(** X1.  [clean_text] returns a text without carriage return, without any of
    the control characters of its third pattern, and with no white space
    at either end. *)
Theorem clean_text_normalised (text : str) :
  Forall (fun c => c <> carriage_return /\ is_control c = false)
         (clean_text text)
  /\ stops is_space (clean_text text)
  /\ stops is_space (rev (clean_text text)).
Proof.
  unfold clean_text. cbv zeta. split; [|apply strip_stops].
  apply strip_Forall.
  set (t2 := sub spaces _ (sub blank_lines _ text)).
  assert (H3 : Forall (fun c => is_control c = false)
                      (sub (char_class is_control) (fun _ => []) t2)).
  { rewrite (sub_one_char _ is_control []) by reflexivity.
    induction t2 as [|c t2 IH]; simpl; [constructor|].
    destruct (is_control c) eqn:E; simpl; [exact IH | now constructor]. }
  set (t3 := sub (char_class is_control) _ t2) in *.
  assert (H4 : Forall (fun c => is_control c = false)
                      (replace [carriage_return; newline] [newline] t3)).
  { apply sub_const_Forall; [exact H3 | now repeat constructor]. }
  set (t4 := replace [carriage_return; newline] [newline] t3) in *.
  unfold replace.
  rewrite (sub_one_char _ (fun c => Ascii.eqb carriage_return c) [newline]).
  - induction H4 as [|c t4 Hc Ht IH]; [constructor|].
    cbn [flat_map].
    destruct (Ascii.eqb carriage_return c) eqn:E; cbn [app].
    + constructor; [split; [discriminate | reflexivity] | exact IH].
    + constructor; [|exact IH]. split; [|exact Hc].
      intros ->. now rewrite Ascii.eqb_refl in E.
  - intros prev [|c s]; [reflexivity|]. unfold literal.
    cbn [startswith length]. rewrite andb_true_r.
    destruct (Ascii.eqb carriage_return c), s; reflexivity.
Qed.

End Cleaning.

(** ** Splitting and joining *)

Section Splitting.
Import Py Re Search Summarizer Builtins Extraction Notions Shapes.

Lemma split_char_from_nonempty (sep : ascii) (s : str) :
  forall cur, split_char_from sep cur s <> [].
Proof.
  induction s as [|c s IH]; intros cur; simpl; [discriminate|].
  destruct (Ascii.eqb c sep); [discriminate | apply IH].
Qed.

Lemma join_cons (sep p : str) (rest : list str) :
  rest <> [] -> join sep (p :: rest) = p ++ sep ++ join sep rest.
Proof. destruct rest; [congruence | reflexivity]. Qed.

Lemma split_char_from_join (sep : ascii) (s : str) :
  forall cur, join [sep] (split_char_from sep cur s) = rev cur ++ s.
Proof.
  induction s as [|c s IH]; intros cur; simpl split_char_from.
  - simpl. now rewrite app_nil_r.
  - destruct (Ascii.eqb c sep) eqn:E.
    + apply Ascii.eqb_eq in E. subst c.
      rewrite join_cons by apply split_char_from_nonempty.
      rewrite IH. reflexivity.
    + rewrite IH. simpl. now rewrite <- app_assoc.
Qed.

Lemma split_char_from_length (sep : ascii) (s : str) :
  forall cur, length (split_char_from sep cur s) = count_char sep s + 1.
Proof.
  unfold count_char.
  induction s as [|c s IH]; intros cur; simpl; [reflexivity|].
  destruct (ascii_dec c sep) as [->|Hne].
  - rewrite Ascii.eqb_refl. simpl. now rewrite IH.
  - apply Ascii.eqb_neq in Hne. rewrite Hne. apply IH.
Qed.

Lemma split_char_from_pieces (sep : ascii) (s : str) :
  forall cur,
    ~ In sep cur ->
    Forall (fun piece => ~ In sep piece) (split_char_from sep cur s).
Proof.
  induction s as [|c s IH]; intros cur Hcur; simpl.
  - constructor; [|constructor]. now rewrite <- in_rev.
  - destruct (Ascii.eqb c sep) eqn:E.
    + constructor; [now rewrite <- in_rev | apply IH; simpl; tauto].
    + apply IH. apply Ascii.eqb_neq in E. simpl. intros [H|H]; auto.
Qed.

(** [text.split(sep)] cuts the text at every separator: joining the
    pieces with the separator gives the text back, there is one piece more
    than there are separators, and no piece holds the separator. *)
Theorem split_char_round_trip (sep : ascii) (s : str) :
  join [sep] (split_char sep s) = s
  /\ length (split_char sep s) = count_char sep s + 1
  /\ Forall (fun piece => ~ In sep piece) (split_char sep s).
Proof.
  unfold split_char. split; [apply (split_char_from_join sep s [])|].
  split; [apply split_char_from_length|].
  apply split_char_from_pieces. simpl. tauto.
Qed.

Lemma count_char_firstn (c : ascii) (n : nat) (s : str) :
  count_char c (firstn n s) <= count_char c s.
Proof.
  unfold count_char. rewrite <- (firstn_skipn n s) at 2.
  rewrite count_occ_app. lia.
Qed.

(** X2.  Every line number reported by a search lies between 1 and the
    [line_count] that [get_text_metadata] gives for the same text, and
    that count is the number of newlines plus 1. *)
Theorem line_number_within_line_count (text query : str) (c : nat) :
  line_count (get_text_metadata text) = count_char Search.newline text + 1
  /\ exists r,
      search_in_text text query c = Some r
      /\ Forall (fun m => 1 <= line_number m
                          <= line_count (get_text_metadata text))
                (matches r).
Proof.
  assert (Hl : line_count (get_text_metadata text)
               = count_char Search.newline text + 1).
  { simpl. apply split_char_from_length. }
  split; [exact Hl|].
  rewrite search_in_text_eq. eexists. split; [reflexivity|].
  apply Forall_forall. intros m Hm.
  apply in_map_iff in Hm as (p & <- & _). rewrite Hl.
  unfold match_at. cbv zeta. simpl line_number.
  pose proof (count_char_firstn Search.newline p text). lia.
Qed.

(** *** Words *)

Lemma split_ws_from_tokens (s : str) :
  forall cur,
    forallb (fun c => negb (is_space c)) cur = true ->
    Forall is_token (split_ws_from cur s).
Proof.
  induction s as [|c s IH]; intros cur Hcur; simpl.
  - destruct cur as [|a cur]; constructor; [|constructor].
    split.
    + intros H. apply (f_equal (@length ascii)) in H.
      rewrite length_rev in H. discriminate.
    + rewrite forallb_forall in *. intros x Hx. apply Hcur. now apply in_rev.
  - destruct (is_space c) eqn:E.
    + destruct cur as [|a cur]; [now apply IH|].
      constructor; [|now apply IH]. split.
      * intros H. apply (f_equal (@length ascii)) in H.
        rewrite length_rev in H. discriminate.
      * rewrite forallb_forall in *. intros x Hx. apply Hcur. now apply in_rev.
    + apply IH. simpl. now rewrite E.
Qed.

Lemma split_ws_from_token (w : str) :
  forallb (fun c => negb (is_space c)) w = true ->
  forall cur s, split_ws_from cur (w ++ s) = split_ws_from (rev w ++ cur) s.
Proof.
  induction w as [|a w IH]; intros Hw cur s; [reflexivity|].
  simpl in Hw. apply andb_true_iff in Hw as [Ha Hw].
  apply negb_true_iff in Ha. simpl. rewrite Ha, IH by assumption.
  now rewrite <- app_assoc.
Qed.

Lemma split_ws_from_end (w s : str) :
  is_token w -> s = [] \/ (exists s', s = " "%char :: s') ->
  split_ws_from [] (w ++ s)
  = w :: split_ws_from [] (match s with [] => [] | _ :: s' => s' end).
Proof.
  intros [Hne Hw] Hs. rewrite split_ws_from_token by assumption.
  rewrite app_nil_r.
  assert (E : exists a x, rev w = a :: x).
  { destruct (rev w) as [|a x] eqn:E; [|eauto].
    apply (f_equal (@rev ascii)) in E. rewrite rev_involutive in E.
    contradiction. }
  destruct E as (a & x & E).
  destruct Hs as [->|[s' ->]]; simpl; rewrite E, <- E, rev_involutive;
    reflexivity.
Qed.

(** Splitting a joined list of words gives the words back. *)
Lemma split_ws_join (ws : list str) :
  Forall is_token ws -> split_ws (join (lit " ") ws) = ws.
Proof.
  unfold split_ws. induction 1 as [|w ws Hw Hws IH]; [reflexivity|].
  destruct ws as [|w' ws].
  - simpl join. rewrite <- (app_nil_r w) at 1.
    rewrite (split_ws_from_end w []); [reflexivity | assumption | now left].
  - rewrite join_cons by discriminate.
    change (lit " " ++ join (lit " ") (w' :: ws))
      with (" "%char :: join (lit " ") (w' :: ws)).
    rewrite split_ws_from_end; [now rewrite IH | assumption | right; eauto].
Qed.

(** The words of [text.split()] are not empty and hold no white space;
    joined by single spaces and split again they come back unchanged. *)
Theorem split_ws_words (text : str) :
  Forall is_token (split_ws text)
  /\ split_ws (join (lit " ") (split_ws text)) = split_ws text.
Proof.
  assert (H : Forall is_token (split_ws text))
    by (apply split_ws_from_tokens; reflexivity).
  split; [exact H | now apply split_ws_join].
Qed.

End Splitting.

(** ** Chunks *)

Section Chunks.
Import Py Re Summarizer Builtins Notes Notions Shapes.

Lemma ceil_step (size d : nat) :
  0 < size -> 0 < d ->
  (d + size - 1) / size = S ((d - size + size - 1) / size).
Proof.
  intros Hs Hd. destruct (Nat.le_gt_cases size d) as [H|H].
  - replace (d + size - 1) with ((d - size + size - 1) + 1 * size) by lia.
    rewrite Nat.div_add by lia. lia.
  - replace (d - size) with 0 by lia. simpl plus.
    rewrite (Nat.div_small (size - 1) size) by lia.
    symmetry. apply Nat.div_unique with (r := d - 1); lia.
Qed.

(** The slices taken at the starts given by [range] tile the list. *)
Lemma slices_tile {A : Type} (l : list A) (size : nat) :
  0 < size ->
  forall n start,
    length l - start <= n ->
    let groups :=
      map (fun i => slice_list l i (i + size))
          (range_from start size ((length l - start + size - 1) / size)) in
    concat groups = skipn start l
    /\ Forall (fun g => 0 < length g <= size) groups
    /\ length groups = (length l - start + size - 1) / size.
Proof.
  intros Hsize. induction n as [|n IH]; intros start Hn; cbv zeta.
  - replace (length l - start) with 0 by lia. simpl plus.
    rewrite (Nat.div_small (size - 1) size) by lia. simpl.
    rewrite skipn_all2 by lia. repeat split. constructor.
  - destruct (Nat.eq_dec (length l - start) 0) as [E|E].
    + rewrite E. simpl plus.
      rewrite (Nat.div_small (size - 1) size) by lia. simpl.
      rewrite skipn_all2 by lia. repeat split. constructor.
    + rewrite ceil_step by lia.
      replace (length l - start - size) with (length l - (start + size)) by lia.
      destruct (IH (start + size) ltac:(lia)) as (H1 & H2 & H3).
      cbn [range_from map concat length]. rewrite H1, H3.
      unfold slice_list at 1. replace (start + size - start) with size by lia.
      split; [|split].
      * rewrite <- (firstn_skipn size (skipn start l)) at 2.
        rewrite skipn_skipn. now rewrite (Nat.add_comm size start).
      * constructor; [|exact H2].
        unfold slice_list. replace (start + size - start) with size by lia.
        rewrite length_firstn, length_skipn. lia.
      * reflexivity.
Qed.

Lemma Forall_skipn_firstn {A : Type} (P : A -> Prop) (l : list A) (i n : nat) :
  Forall P l -> Forall P (firstn n (skipn i l)).
Proof.
  intros H. apply Forall_forall. intros x Hx. rewrite Forall_forall in H.
  apply H. apply firstn_incl in Hx. now apply skipn_incl in Hx.
Qed.

(** X3.  [chunk_text] raises [ValueError] for a chunk size of 0.  For any
    other size it returns chunks that, split into words again, give the
    words of the text in their order; every chunk holds between 1 and
    [chunk_size] words, and there are as many chunks as the number of
    words divided by [chunk_size], rounded up. *)
Theorem chunk_text_keeps_words (text : str) (chunk_size : nat) :
  match chunk_size with
  | 0 => chunk_text text chunk_size = Raise ValueError
  | S _ =>
      exists chunks,
        chunk_text text chunk_size = Ok chunks
        /\ flat_map split_ws chunks = split_ws text
        /\ Forall (fun chunk => 0 < length (split_ws chunk) <= chunk_size)
                  chunks
        /\ length chunks
           = (length (split_ws text) + chunk_size - 1) / chunk_size
  end.
Proof.
  destruct chunk_size as [|k]; [reflexivity|].
  set (size := S k). set (words := split_ws text).
  destruct (slices_tile words size ltac:(unfold size; lia)
              (length words) 0 ltac:(lia)) as (H1 & H2 & H3).
  rewrite Nat.sub_0_r in *. simpl skipn in H1.
  set (groups := map (fun i => slice_list words i (i + size))
                     (range_from 0 size ((length words + size - 1) / size))) in *.
  assert (Htok : Forall (fun g => Forall is_token g) groups).
  { apply Forall_forall. intros g Hg. unfold groups in Hg.
    apply in_map_iff in Hg as (i & <- & _). unfold slice_list.
    apply Forall_skipn_firstn. apply (split_ws_words text). }
  exists (map (join (lit " ")) groups). split; [|split; [|split]].
  - unfold chunk_text, range. cbv zeta. fold words. subst size.
    cbv beta iota. rewrite Nat.sub_0_r. unfold bind. unfold groups.
    rewrite map_map. reflexivity.
  - rewrite flat_map_concat_map, map_map.
    transitivity (concat groups); [|exact H1]. f_equal.
    rewrite <- (map_id groups) at 2.
    apply map_ext_in. intros g Hg. apply split_ws_join.
    rewrite Forall_forall in Htok. now apply Htok.
  - apply Forall_forall. intros chunk Hc.
    apply in_map_iff in Hc as (g & <- & Hg).
    rewrite Forall_forall in Htok, H2.
    rewrite split_ws_join by now apply Htok. now apply H2.
  - now rewrite length_map.
Qed.

End Chunks.

(** ** Sorting *)

Section Sorting.
Import Py Summarizer.
Context {A : Type} (before : A -> A -> bool).
Hypothesis before_total : forall x y, before x y = false -> before y x = true.
Hypothesis before_trans :
  forall x y z, before x y = true -> before y z = true -> before x z = true.

Lemma insert_by_sorted (x : A) (l : list A) :
  StronglySorted (fun a b => before a b = true) l ->
  StronglySorted (fun a b => before a b = true) (insert_by before x l).
Proof.
  induction 1 as [|y l Hl IH Hy]; simpl.
  - constructor; constructor.
  - destruct (before x y) eqn:E.
    + constructor; [now constructor|].
      constructor; [exact E|].
      eapply Forall_impl; [|exact Hy]. intros z Hz. now apply (before_trans x y z).
    + constructor; [exact IH|].
      apply Forall_forall. intros z Hz.
      apply (Permutation_in _ (insert_by_perm before x l)) in Hz.
      destruct Hz as [<-|Hz]; [now apply before_total|].
      rewrite Forall_forall in Hy. now apply Hy.
Qed.

(** [sorted] puts its input in order. *)
Lemma sorted_by_sorted (l : list A) :
  StronglySorted (fun a b => before a b = true) (sorted_by before l).
Proof.
  induction l as [|x l IH]; simpl; [constructor | now apply insert_by_sorted].
Qed.

End Sorting.

Section SortedLists.
Context {A : Type} (R : A -> A -> Prop).

Lemma StronglySorted_app_inv (l1 l2 : list A) :
  StronglySorted R (l1 ++ l2) ->
  StronglySorted R l1 /\ StronglySorted R l2
  /\ forall a b, In a l1 -> In b l2 -> R a b.
Proof.
  induction l1 as [|x l1 IH]; simpl; intros H.
  - repeat split; [constructor | exact H | intros a b []].
  - inversion H as [|y l Hl Hx]; subst.
    destruct (IH Hl) as (H1 & H2 & H3).
    apply Forall_app in Hx as [Hx1 Hx2].
    repeat split; [now constructor | exact H2 |].
    intros a b [<-|Ha] Hb; [|now apply H3].
    rewrite Forall_forall in Hx2. now apply Hx2.
Qed.

Lemma StronglySorted_firstn (n : nat) (l : list A) :
  StronglySorted R l -> StronglySorted R (firstn n l).
Proof.
  intros H. rewrite <- (firstn_skipn n l) in H.
  now apply StronglySorted_app_inv in H.
Qed.

Lemma StronglySorted_filter (f : A -> bool) (l : list A) :
  StronglySorted R l -> StronglySorted R (filter f l).
Proof.
  induction 1 as [|x l Hl IH Hx]; simpl; [constructor|].
  destruct (f x); [|exact IH]. constructor; [exact IH|].
  apply Forall_forall. intros y Hy. apply filter_In in Hy as [Hy _].
  rewrite Forall_forall in Hx. now apply Hx.
Qed.

End SortedLists.

Lemma StronglySorted_map {A B : Type} (R : B -> B -> Prop) (f : A -> B)
    (l : list A) :
  StronglySorted (fun a b => R (f a) (f b)) l -> StronglySorted R (map f l).
Proof.
  induction 1 as [|x l Hl IH Hx]; simpl; constructor; [exact IH|].
  apply Forall_forall. intros y Hy. apply in_map_iff in Hy as (a & <- & Ha).
  rewrite Forall_forall in Hx. now apply Hx.
Qed.

Lemma StronglySorted_impl {A : Type} (R S : A -> A -> Prop) (l : list A) :
  (forall a b, R a b -> S a b) -> StronglySorted R l -> StronglySorted S l.
Proof.
  intros H. induction 1 as [|x l Hl IH Hx]; constructor; [exact IH|].
  eapply Forall_impl; [|exact Hx]. intros y. apply H.
Qed.

(** Counts in falling order. *)
Lemma sorted_by_count_desc (d : list (Py.str * nat)) :
  StronglySorted (fun a b => snd b <= snd a)
                 (Summarizer.sorted_by (fun x y => snd y <=? snd x) d).
Proof.
  eapply StronglySorted_impl;
    [|apply (sorted_by_sorted (fun x y : Py.str * nat => snd y <=? snd x))].
  - intros a b H. now apply Nat.leb_le.
  - intros x y H. apply Nat.leb_gt in H. apply Nat.leb_le. lia.
  - intros x y z H1 H2. apply Nat.leb_le in H1, H2. apply Nat.leb_le. lia.
Qed.

(** ** Word counts and keywords *)

Section WordCounts.
Import Py Re Summarizer Builtins SearchMore Notes Notions.

(** Dropping entries of a dict leaves its keys distinct. *)
Lemma keys_filter_NoDup {V : Type} (keep : str * V -> bool) (d : dict V) :
  NoDup (keys d) -> NoDup (keys (filter keep d)).
Proof.
  unfold keys. intros Hd. induction d as [|[k v] d IH]; [constructor|].
  simpl in Hd. apply NoDup_cons_iff in Hd as [Hk Hd]. simpl.
  destruct (keep (k, v)); [|now apply IH]. simpl.
  apply NoDup_cons; [|now apply IH].
  intros Hin. apply Hk. apply in_map_iff in Hin as (e & He & Hin).
  apply filter_In in Hin as [Hin _]. apply in_map_iff. now exists e.
Qed.

(** The counter of a list of words, sorted by falling count. *)
Lemma ranked_counter (words : list str) :
  let ranked := sorted_by (fun x y => snd y <=? snd x) (Counter words) in
  NoDup (map fst ranked)
  /\ Forall (fun e => snd e = occurrences_of words (fst e) /\ 0 < snd e
                      /\ In (fst e) words) ranked
  /\ StronglySorted (fun a b => snd b <= snd a) ranked
  /\ forall w, In w words -> In (w, occurrences_of words w) ranked.
Proof.
  cbv zeta.
  pose proof (sorted_by_perm (fun x y : str * nat => snd y <=? snd x)
                             (Counter words)) as Hperm.
  destruct (Counter_spec words) as (Hnd & Hcount & Hkeys).
  split; [|split; [|split]].
  - eapply Permutation_NoDup; [|exact Hnd].
    apply Permutation_map, Permutation_sym, Hperm.
  - apply Forall_forall. intros [w n] Hin.
    apply (Permutation_in _ Hperm) in Hin.
    rewrite Forall_forall in Hcount. destruct (Hcount _ Hin) as [H1 H2].
    simpl. repeat split; auto. apply Hkeys.
    change w with (fst (w, n)). now apply in_map.
  - apply sorted_by_count_desc.
  - intros w Hw. apply Hkeys in Hw. apply in_map_iff in Hw as ([w' n] & Hf & Hin).
    simpl in Hf. subst w'. rewrite Forall_forall in Hcount.
    destruct (Hcount _ Hin) as [-> _].
    apply (Permutation_in _ (Permutation_sym Hperm)). exact Hin.
Qed.

(** X4.  [get_word_frequency] returns at most [top_n] pairs, no word twice,
    each word that is not one of its stop words with the number of times
    the text holds it, in falling order of count; a counted word is left
    out only when [top_n] pairs are returned, all with a count at least as
    great as its own. *)
Theorem get_word_frequency_top (text : str) (top_n : nat) :
  let words := frequency_words text in
  let result := get_word_frequency text top_n in
  length result <= top_n
  /\ NoDup (map fst result)
  /\ Forall (fun e => snd e = occurrences_of words (fst e) /\ 0 < snd e
                      /\ mem (fst e) stop_words = false) result
  /\ StronglySorted (fun a b => snd b <= snd a) result
  /\ forall w,
      In w words -> ~ In w (map fst result) ->
      length result = top_n
      /\ Forall (fun e => occurrences_of words w <= snd e) result.
Proof.
  cbv zeta. unfold get_word_frequency. cbv zeta.
  destruct (ranked_counter (frequency_words text)) as (Hnd & Hall & Hsort & Hin).
  set (ranked := sorted_by _ (Counter (frequency_words text))) in *.
  split; [rewrite length_firstn; lia|]. split; [|split; [|split]].
  - rewrite <- firstn_map. now apply NoDup_firstn.
  - apply Forall_forall. intros e He. apply firstn_incl in He.
    rewrite Forall_forall in Hall. destruct (Hall e He) as (H1 & H2 & H3).
    repeat split; auto. unfold frequency_words in H3.
    apply filter_In in H3 as [_ H3]. now apply negb_true_iff in H3.
  - now apply StronglySorted_firstn.
  - intros w Hw Hout. specialize (Hin w Hw).
    rewrite <- (firstn_skipn top_n ranked) in Hin, Hsort.
    apply in_app_or in Hin as [Hin|Hin].
    { exfalso. apply Hout. apply in_map_iff. now exists (w, occurrences_of (frequency_words text) w). }
    apply StronglySorted_app_inv in Hsort as (_ & _ & Hsort). split.
    + rewrite length_firstn.
      destruct (Nat.le_gt_cases top_n (length ranked)) as [H|H]; [lia|].
      rewrite skipn_all2 in Hin by lia. contradiction.
    + apply Forall_forall. intros e He. apply (Hsort e _ He Hin).
Qed.

(** X5.  [extract_keywords] returns at most [top_n] words, no word twice, each
    standing at least twice among the counted words of the text (a word
    that stands once is never a keyword), in falling order of count. *)
Theorem extract_keywords_repeated (text : str) (top_n : nat) :
  let words := counted_words text in
  let keywords := extract_keywords text top_n in
  length keywords <= top_n
  /\ NoDup keywords
  /\ Forall (fun w => 2 <= occurrences_of words w /\ In w words) keywords
  /\ StronglySorted
       (fun a b => occurrences_of words b <= occurrences_of words a) keywords.
Proof.
  cbv zeta. unfold extract_keywords, most_common. cbv zeta.
  destruct (ranked_counter (counted_words text)) as (Hnd & Hall & Hsort & _).
  set (ranked := sorted_by _ (Counter (counted_words text))) in *.
  set (kept := filter (fun e => 1 <? snd e) (firstn (top_n * 2) ranked)).
  assert (Hkept : Forall (fun e => snd e = occurrences_of (counted_words text) (fst e)
                                   /\ 2 <= snd e
                                   /\ In (fst e) (counted_words text)) kept).
  { apply Forall_forall. intros e He. apply filter_In in He as [He H1].
    apply firstn_incl in He. rewrite Forall_forall in Hall.
    destruct (Hall e He) as (H2 & _ & H3). apply Nat.ltb_lt in H1. auto. }
  split; [rewrite length_firstn; lia|]. split; [|split].
  - apply NoDup_firstn. apply (keys_filter_NoDup (fun e => 1 <? snd e)).
    unfold keys.
    rewrite <- firstn_map. now apply NoDup_firstn.
  - apply Forall_forall. intros w Hw. apply firstn_incl in Hw.
    apply in_map_iff in Hw as (e & <- & He). rewrite Forall_forall in Hkept.
    destruct (Hkept e He) as (H1 & H2 & H3). rewrite <- H1. auto.
  - apply StronglySorted_firstn. apply StronglySorted_map.
    assert (Hs : StronglySorted (fun a b => snd b <= snd a) kept).
    { apply StronglySorted_filter. now apply StronglySorted_firstn. }
    clear - Hs Hkept. induction Hs as [|e l Hl IH He]; constructor.
    + apply IH. now inversion Hkept.
    + inversion Hkept as [|x m [Hx _] Hm]; subst.
      rewrite Forall_forall in *. intros y Hy.
      destruct (Hm y Hy) as [Hy' _]. rewrite <- Hx, <- Hy'. now apply He.
Qed.

End WordCounts.

(** ** Fuzzy search *)

Section Fuzzy.
Import Py Re Search Summarizer Builtins SearchMore Notions Shapes.

Lemma skipn_cons_nth {A : Type} (l : list A) (x : A) (r : list A) :
  forall i, skipn i l = x :: r -> nth_error l i = Some x /\ skipn (S i) l = r.
Proof.
  induction l as [|a l IH]; intros i H.
  - destruct i; discriminate.
  - destruct i as [|i]; simpl in *.
    + now injection H as -> ->.
    + destruct (IH i H) as [H1 H2]. split; [exact H1|]. exact H2.
Qed.

Lemma fuzzy_loop_spec (words : list str) (ql : str) (rest : list str) :
  forall i,
    skipn i words = rest ->
    Forall (fun m =>
              i <= fuzzy_position m
              /\ nth_error words (fuzzy_position m) = Some (fuzzy_word m)
              /\ fuzzy_test ql (fuzzy_word m) = true
              /\ fuzzy_context m
                 = join (lit " ")
                        (slice_list words (fuzzy_position m - 5)
                                    (fuzzy_position m + 6)))
           (fuzzy_loop words ql i rest)
    /\ StronglySorted lt (map fuzzy_position (fuzzy_loop words ql i rest))
    /\ forall j w,
        i <= j -> nth_error words j = Some w -> fuzzy_test ql w = true ->
        In j (map fuzzy_position (fuzzy_loop words ql i rest)).
Proof.
  induction rest as [|word rest IH]; intros i Hi.
  - simpl. split; [constructor|]. split; [constructor|].
    intros j w Hj Hw _. exfalso.
    assert (Hlen : length words <= i).
    { apply (f_equal (@length str)) in Hi. rewrite length_skipn in Hi.
      simpl in Hi. lia. }
    assert (j < length words) by (apply nth_error_Some; congruence). lia.
  - destruct (skipn_cons_nth _ _ _ _ Hi) as [Hnth Hrest].
    destruct (IH (S i) Hrest) as (H1 & H2 & H3).
    assert (H1' : Forall (fun m => i <= fuzzy_position m
                   /\ nth_error words (fuzzy_position m) = Some (fuzzy_word m)
                   /\ fuzzy_test ql (fuzzy_word m) = true
                   /\ fuzzy_context m
                      = join (lit " ")
                             (slice_list words (fuzzy_position m - 5)
                                         (fuzzy_position m + 6)))
                  (fuzzy_loop words ql (S i) rest)).
    { eapply Forall_impl; [|exact H1]. simpl. intros m (Ha & Hb). split; [lia | exact Hb]. }
    simpl fuzzy_loop. destruct (fuzzy_test ql word) eqn:E.
    + split; [|split].
      * constructor; [|exact H1'].
        cbn [fuzzy_position fuzzy_word fuzzy_context]. auto.
      * simpl. constructor; [exact H2|].
        apply Forall_forall. intros p Hp.
        apply in_map_iff in Hp as (m & <- & Hm).
        rewrite Forall_forall in H1. destruct (H1 m Hm) as [Hle _]. lia.
      * intros j w Hj Hw Ht. destruct (Nat.eq_dec j i) as [->|Hne].
        -- now left.
        -- right. apply (H3 j w); [lia | assumption | assumption].
    + split; [exact H1'|]. split; [exact H2|].
      intros j w Hj Hw Ht. destruct (Nat.eq_dec j i) as [->|Hne].
      * rewrite Hnth in Hw. injection Hw as <-. congruence.
      * apply (H3 j w); [lia | assumption | assumption].
Qed.

(** X6.  [fuzzy_search] reports, in rising order of position, exactly the
    words of [text.split()] that hold the lower-cased query or are held by
    it, once lower-cased; each entry gives the word at its position, and
    its context, split again, is the stretch of words from 5 before the
    position to 5 after it. *)
Theorem fuzzy_search_reports (text query : str) :
  let words := split_ws text in
  let found := fuzzy_search text query in
  Forall (fun m =>
            nth_error words (fuzzy_position m) = Some (fuzzy_word m)
            /\ fuzzy_test (lower query) (fuzzy_word m) = true
            /\ split_ws (fuzzy_context m)
               = slice_list words (fuzzy_position m - 5) (fuzzy_position m + 6))
         found
  /\ StronglySorted lt (map fuzzy_position found)
  /\ forall j w,
      nth_error words j = Some w -> fuzzy_test (lower query) w = true ->
      In j (map fuzzy_position found).
Proof.
  cbv zeta. unfold fuzzy_search. cbv zeta.
  destruct (fuzzy_loop_spec (split_ws text) (lower query) (split_ws text) 0
              eq_refl) as (H1 & H2 & H3).
  split; [|split; [exact H2|]].
  - eapply Forall_impl; [|exact H1]. simpl. intros m (_ & Ha & Hb & Hc).
    repeat split; auto. rewrite Hc. apply split_ws_join.
    unfold slice_list. apply Forall_skipn_firstn. apply (split_ws_words text).
  - intros j w. apply H3. lia.
Qed.

Lemma fuzzy_test_empty (word : str) : fuzzy_test [] word = true.
Proof.
  unfold fuzzy_test, contains. cbv zeta.
  now destruct (lower word).
Qed.

Lemma fuzzy_loop_empty (words rest : list str) :
  forall i,
    map fuzzy_word (fuzzy_loop words [] i rest) = rest
    /\ map fuzzy_position (fuzzy_loop words [] i rest) = seq i (length rest).
Proof.
  induction rest as [|word rest IH]; intros i; [now split|].
  simpl fuzzy_loop. rewrite fuzzy_test_empty. simpl.
  destruct (IH (S i)) as [-> ->]. now split.
Qed.

(** X7.  With the empty query, [fuzzy_search] reports every word of the text,
    in order. *)
Theorem fuzzy_search_empty_query (text : str) :
  map fuzzy_word (fuzzy_search text []) = split_ws text
  /\ map fuzzy_position (fuzzy_search text [])
     = seq 0 (length (split_ws text)).
Proof. unfold fuzzy_search. cbv zeta. apply fuzzy_loop_empty. Qed.

End Fuzzy.

(** ** More on page numbers and operators *)

Section PageMore.
Import Py Re Search Summarizer Builtins SearchMore Notions Shapes.

Lemma is_marker_head (w digits : str) :
  is_marker w digits -> exists w', w = dash :: w'.
Proof. intros (ws1 & word & ws2 & ws3 & -> & _). simpl. eauto. Qed.

Lemma reads_no_dash (s : str) (ds : list str) :
  reads s ds -> ~ In dash s -> ds = [].
Proof.
  induction 1 as [|w digits s ds Hw H IH|c s ds Hc H IH]; intros Hd.
  - reflexivity.
  - destruct (is_marker_head _ _ Hw) as [w' ->]. exfalso. apply Hd. now left.
  - apply IH. intros Hin. apply Hd. now right.
Qed.

(** A reading of a marker between two stretches without dash meets that
    marker and no other. *)
Lemma reads_single (w digits after : str) (ds : list str) :
  is_marker w digits -> ~ In dash after ->
  forall before,
    ~ In dash before ->
    reads (before ++ w ++ after) ds -> ds = [digits].
Proof.
  intros Hw Hafter.
  pose proof (marker_parse_complete w digits after Hw) as Hparse.
  induction before as [|c before IH]; intros Hb H.
  - simpl in H. remember (w ++ after) as s eqn:Es.
    destruct H as [|w' d' s' ds' Hw' H'|c s' ds' Hc H'].
    + destruct (is_marker_head _ _ Hw) as [w0 ->]. discriminate.
    + pose proof (marker_parse_complete w' d' s' Hw') as Hparse'.
      assert (E : Some (d', s') = Some (digits, after)) by congruence.
      injection E as -> ->.
      now rewrite (reads_no_dash _ _ H' Hafter).
    + exfalso. apply (Hc w digits after); [congruence | exact Hw].
  - simpl in H. remember (c :: before ++ w ++ after) as s eqn:Es.
    destruct H as [|w' d' s' ds' Hw' H'|c' s' ds' Hc H'].
    + discriminate.
    + destruct (is_marker_head _ _ Hw') as [w0 ->]. injection Es as <- _.
      exfalso. apply Hb. now left.
    + injection Es as -> ->. apply IH; [|exact H'].
      intros Hin. apply Hb. now right.
Qed.

(** X10.  When the 500 characters before a position are a marker between two
    stretches that hold no dash, [extract_page_number] gives the number
    written in the marker. *)
Theorem page_number_after_marker
    (text : str) (p : nat) (before w digits after : str) :
  slice text (p - 500) p = before ++ w ++ after ->
  is_marker w digits ->
  ~ In dash before -> ~ In dash after ->
  extract_page_number text p = Some (int_of_digits digits).
Proof.
  intros Hwin Hw Hb Ha.
  destruct (extract_page_number_reads text p) as (ds & Hreads & ->).
  rewrite Hwin in Hreads.
  now rewrite (reads_single w digits after ds Hw Ha before Hb Hreads).
Qed.

Lemma page_number_after_marker_witness :
  extract_page_number
    ([Search.newline] ++ lit "--- Page 12 ---" ++ [Search.newline] ++ lit "foo bar")
    17
  = Some 12%N.
Proof.
  apply (page_number_after_marker _ 17 [Search.newline] (lit "--- Page 12 ---")
           (lit "12") [Search.newline]).
  - reflexivity.
  - exists (lit " "), (lit "Page"), (lit " "), (lit " ").
    repeat split; try reflexivity; try discriminate. now left.
  - simpl. intros [H|[]]. discriminate H.
  - simpl. intros [H|[]]. discriminate H.
Defined.

(** X11.  When the 500 characters before a position hold no dash,
    [extract_page_number] gives no page number. *)
Theorem page_number_none_without_dash (text : str) (p : nat) :
  ~ In dash (slice text (p - 500) p) -> extract_page_number text p = None.
Proof.
  intros H. destruct (extract_page_number_reads text p) as (ds & Hreads & ->).
  now rewrite (reads_no_dash _ _ Hreads H).
Qed.

Lemma page_number_none_without_dash_witness :
  extract_page_number (lit "Page 3 of the notes: foo bar") 22 = None.
Proof.
  apply (page_number_none_without_dash (lit "Page 3 of the notes: foo bar") 22).
  simpl. unfold dash. intuition discriminate.
Defined.

Lemma search_each_eq (text : str) (terms : list str) :
  search_each text terms = Some (map (term_result text) terms).
Proof.
  induction terms as [|term terms IH]; simpl; [reflexivity|].
  now rewrite search_in_text_term, IH.
Qed.

(** X12.  A query that holds " AND ", case apart, is answered by one result
    per term, in the order of the terms, each being the search for that
    term, and this whether or not the query also holds " OR "; the results
    are those of [search_multiple_terms] on the terms. *)
Theorem and_search_one_result_per_term (text query : str) :
  contains (lit " AND ") (upper query) = true ->
  exists rs,
    search_with_operators text query = Some (PerTerm rs)
    /\ search_multiple_terms text
         (map strip (split (spaced_word (lit "AND")) query)) = Some rs
    /\ Forall2 (fun term r =>
                  search_in_text text term default_context = Some r)
               (map strip (split (spaced_word (lit "AND")) query)) rs.
Proof.
  intros H. eexists. unfold search_with_operators, search_multiple_terms.
  rewrite H, search_each_eq. split; [reflexivity|]. split; [reflexivity|].
  apply term_results_Forall2.
Qed.

Lemma and_search_one_result_per_term_witness :
  exists rs,
    search_with_operators (lit "a b a") (lit "a and b or c") = Some (PerTerm rs)
    /\ length rs = 2.
Proof.
  destruct (and_search_one_result_per_term (lit "a b a") (lit "a and b or c"))
    as (rs & Hrs & _ & Hall); [reflexivity|].
  exists rs. split; [exact Hrs|].
  apply Forall2_length in Hall. rewrite <- Hall. reflexivity.
Defined.

End PageMore.

(** ** More on sentences and summaries *)

Section SummaryMore.
Import Py Re Summarizer Builtins Notes Notions Shapes.

Lemma filter_map_prefilter {A B : Type} (f : A -> B) (P Q : B -> bool)
    (l : list A) :
  (forall b, P b = true -> Q b = true) ->
  filter P (map f l) = filter P (map f (filter (fun a => Q (f a)) l)).
Proof.
  intros H. induction l as [|a l IH]; [reflexivity|]. simpl.
  destruct (Q (f a)) eqn:EQ; simpl.
  - destruct (P (f a)); now rewrite IH.
  - destruct (P (f a)) eqn:EP; [|exact IH].
    apply H in EP. congruence.
Qed.

Lemma split_sentences_filter (text : str) :
  Summarizer.split_into_sentences text
  = filter (fun sent => (15 <? length sent)
                        && negb (startswith (lit "---") sent))
           (Extraction.split_into_sentences text).
Proof.
  unfold Summarizer.split_into_sentences, Extraction.split_into_sentences.
  cbv zeta. apply filter_map_prefilter.
  intros [|a x] H; [discriminate | reflexivity].
Qed.

(** X13.  The sentences kept by the summarizer are those of
    [split_into_sentences] of [extraction.py] that are longer than 15
    characters and do not start with three dashes, in the same order; so
    the [sentence_count] of [get_text_metadata] is at least their number. *)
Theorem summarizer_sentences_among_extracted (text : str) :
  Summarizer.split_into_sentences text
  = filter (fun sent => (15 <? length sent)
                        && negb (startswith (lit "---") sent))
           (Extraction.split_into_sentences text)
  /\ length (Summarizer.split_into_sentences text)
     <= Extraction.sentence_count (Extraction.get_text_metadata text).
Proof.
  split; [apply split_sentences_filter|].
  rewrite split_sentences_filter. simpl. apply filter_length_le.
Qed.

(** X14.  Every sentence of [split_into_sentences] is longer than 15
    characters, does not start with three dashes, and neither starts nor
    ends with white space. *)
Theorem split_into_sentences_kept (text : str) :
  Forall (fun sent =>
            15 < length sent
            /\ startswith (lit "---") sent = false
            /\ stops is_space sent
            /\ stops is_space (rev sent))
         (Summarizer.split_into_sentences text).
Proof.
  apply Forall_forall. intros sent H.
  unfold Summarizer.split_into_sentences in H. cbv zeta in H.
  apply filter_In in H as [H1 H2].
  apply in_map_iff in H1 as (s & <- & _).
  apply andb_true_iff in H2 as [H2 H3].
  apply Nat.ltb_lt in H2. apply negb_true_iff in H3.
  repeat split; auto; apply strip_stops.
Qed.

Lemma index_nth (l : list str) (x : str) :
  forall i, index l x = Ok i -> nth_error l i = Some x.
Proof.
  induction l as [|y l IH]; intros i; simpl; [discriminate|].
  destruct (eqb_str y x) eqn:E.
  - apply eqb_str_true in E. intros [= <-]. now subst.
  - destruct (index l x) as [j|e] eqn:Ej; simpl; [|discriminate].
    intros [= <-]. now apply IH.
Qed.

Lemma index_or_zero_nth (l : list str) (x : str) :
  In x l -> nth_error l (index_or_zero l x) = Some x.
Proof.
  intros H. destruct (index_found l x H) as [i Hi].
  unfold index_or_zero. rewrite Hi. now apply index_nth.
Qed.

(** [sort_by_position] puts the items in the order of the first places of
    their texts among the sentences. *)
Lemma sort_by_position_sorted (sentences : list str) (top : list (str * Q)) :
  incl (map fst top) sentences ->
  exists res,
    sort_by_position sentences top = Ok res
    /\ Permutation res top
    /\ StronglySorted
         (fun a b => index_or_zero sentences (fst a)
                     <= index_or_zero sentences (fst b)) res.
Proof.
  intros Hincl. unfold sort_by_position.
  rewrite (map_outcome_Ok _ (fun x => (index_or_zero sentences (fst x), x))).
  - simpl bind.
    set (keyed := map (fun x => (index_or_zero sentences (fst x), x)) top).
    set (before := fun a b : nat * (str * Q) => fst a <=? fst b).
    pose proof (sorted_by_perm before keyed) as Hperm.
    eexists. split; [reflexivity|]. split.
    + eapply perm_trans; [apply Permutation_map, Hperm|].
      unfold keyed. rewrite map_map. simpl. rewrite map_id.
      apply Permutation_refl.
    + apply StronglySorted_map.
      assert (Hs : StronglySorted (fun a b => before a b = true)
                                  (sorted_by before keyed)).
      { apply sorted_by_sorted; unfold before.
        - intros x y H. apply Nat.leb_gt in H. apply Nat.leb_le. lia.
        - intros x y z H1 H2. apply Nat.leb_le in H1, H2. apply Nat.leb_le. lia. }
      assert (Hk : Forall (fun e => fst e = index_or_zero sentences (fst (snd e)))
                          (sorted_by before keyed)).
      { apply Forall_forall. intros e He.
        apply (Permutation_in _ Hperm) in He. unfold keyed in He.
        apply in_map_iff in He as (x & <- & _). reflexivity. }
      clear Hperm. induction Hs as [|e l Hl IH He]; constructor.
      * apply IH. now inversion Hk.
      * inversion Hk as [|x m Hx Hm]; subst.
        rewrite Forall_forall in *. intros y Hy.
        rewrite <- Hx, <- (Hm y Hy). apply Nat.leb_le. now apply He.
  - apply Forall_forall. intros x Hx.
    rewrite index_In; [reflexivity|]. apply Hincl. now apply in_map.
Qed.

(** The long branch of [generate_summary], step by step. *)
Lemma generate_summary_long (text : str) (n : nat) :
  n < length (Summarizer.split_into_sentences text) ->
  let sentences := Summarizer.split_into_sentences text in
  exists word_freq res,
    calculate_word_frequency text = Ok word_freq
    /\ generate_summary text n
       = Ok (mkSummary (join (lit " ") (map fst res)) (map fst res))
    /\ Permutation res
         (firstn n (sorted_by (fun x y => Qle_bool (snd y) (snd x))
                              (score_sentences sentences word_freq)))
    /\ StronglySorted
         (fun a b => index_or_zero sentences (fst a)
                     <= index_or_zero sentences (fst b)) res.
Proof.
  intros Hn. cbv zeta.
  set (sentences := Summarizer.split_into_sentences text) in *.
  eexists. unfold generate_summary. cbv zeta. fold sentences.
  replace (length sentences <=? n) with false
    by (symmetry; apply Nat.leb_gt; lia).
  rewrite calculate_word_frequency_eq. simpl bind.
  set (word_freq := map _ (word_count_of text)).
  destruct (score_sentences_keys sentences word_freq) as [Hnd Hin].
  set (ranked := sorted_by (fun x y => Qle_bool (snd y) (snd x))
                           (score_sentences sentences word_freq)).
  assert (Htop : incl (map fst (firstn n ranked)) sentences).
  { intros x Hx. apply Hin.
    assert (Hr : Permutation (map fst ranked)
                             (keys (score_sentences sentences word_freq)))
      by apply Permutation_map, sorted_by_perm.
    eapply Permutation_in; [exact Hr|].
    rewrite <- firstn_map in Hx. now apply firstn_incl in Hx. }
  destruct (sort_by_position_sorted sentences (firstn n ranked) Htop)
    as (res & Hres & Hperm & Hsorted).
  rewrite Hres. simpl bind. exists res. repeat split; assumption.
Qed.

End SummaryMore.

Section SummaryProperties.
Import Py Re Summarizer Builtins Notes Notions Shapes.

(** X15.  [generate_summary] raises nothing, whatever the text and the target
    count n; its bullet points are at most n sentences of the split. *)
Theorem generate_summary_returns (text : str) (n : nat) :
  exists s,
    generate_summary text n = Ok s
    /\ length (bullet_points s) <= n
    /\ incl (bullet_points s) (Summarizer.split_into_sentences text).
Proof.
  destruct (Nat.le_gt_cases (length (Summarizer.split_into_sentences text)) n)
    as [Hle|Hgt].
  - exists (mkSummary text (Summarizer.split_into_sentences text)).
    split; [|split; [exact Hle | apply incl_refl]].
    unfold generate_summary. cbv zeta. apply Nat.leb_le in Hle. now rewrite Hle.
  - destruct (generate_summary_long text n Hgt) as (wf & res & _ & Hs & Hperm & _).
    eexists. split; [exact Hs|]. simpl bullet_points. split.
    + rewrite length_map, (Permutation_length Hperm), length_firstn. lia.
    + intros x Hx. apply in_map_iff in Hx as (e & <- & He).
      apply (Permutation_in _ Hperm) in He. apply firstn_incl in He.
      apply (Permutation_in _ (sorted_by_perm _ _)) in He.
      apply (score_sentences_keys (Summarizer.split_into_sentences text) wf).
      now apply in_map.
Qed.

Lemma sorted_le_strict (sentences l : list str) :
  NoDup l -> incl l sentences ->
  StronglySorted (fun a b => index_or_zero sentences a
                             <= index_or_zero sentences b) l ->
  StronglySorted (fun a b => index_or_zero sentences a
                             < index_or_zero sentences b) l.
Proof.
  intros Hnd Hincl Hs. induction Hs as [|x l Hl IH Hx]; constructor.
  - apply IH; [now inversion Hnd | intros y Hy; apply Hincl; now right].
  - inversion Hnd as [|y m Hnotin Hm]; subst.
    rewrite Forall_forall in *. intros y Hy.
    specialize (Hx y Hy).
    destruct (Nat.eq_dec (index_or_zero sentences x) (index_or_zero sentences y))
      as [E|E]; [|lia].
    exfalso. apply Hnotin.
    pose proof (index_or_zero_nth sentences x (Hincl x (or_introl eq_refl))) as H1.
    pose proof (index_or_zero_nth sentences y (Hincl y (or_intror Hy))) as H2.
    rewrite E in H1. rewrite H1 in H2. injection H2 as ->. exact Hy.
Qed.

(** X16.  When the text has more sentences than the target count, the text of
    the summary is its bullet points joined by single spaces, and the
    bullet points stand in the order of the document: each is a sentence
    of the split, and the first places of their texts in the split rise
    strictly. *)
Theorem summary_in_document_order (text : str) (n : nat) :
  n < length (Summarizer.split_into_sentences text) ->
  exists s,
    generate_summary text n = Ok s
    /\ Summarizer.text s = join (lit " ") (bullet_points s)
    /\ Forall (fun b =>
                 nth_error (Summarizer.split_into_sentences text)
                           (index_or_zero (Summarizer.split_into_sentences text) b)
                 = Some b)
              (bullet_points s)
    /\ StronglySorted
         (fun a b =>
            index_or_zero (Summarizer.split_into_sentences text) a
            < index_or_zero (Summarizer.split_into_sentences text) b)
         (bullet_points s).
Proof.
  intros Hn.
  destruct (generate_summary_long text n Hn) as (wf & res & _ & Hs & Hperm & Hsorted).
  set (sentences := Summarizer.split_into_sentences text) in *.
  destruct (score_sentences_keys sentences wf) as [Hnd Hin].
  set (ranked := sorted_by (fun x y => Qle_bool (snd y) (snd x))
                           (score_sentences sentences wf)) in *.
  assert (Hranked : Permutation (map fst ranked)
                                (keys (score_sentences sentences wf)))
    by apply Permutation_map, sorted_by_perm.
  assert (Hfst : Permutation (map fst res) (firstn n (map fst ranked))).
  { rewrite firstn_map. now apply Permutation_map. }
  assert (Hincl : incl (map fst res) sentences).
  { intros x Hx. apply Hin. eapply Permutation_in; [exact Hranked|].
    apply (Permutation_in _ Hfst) in Hx. now apply firstn_incl in Hx. }
  assert (Hnodup : NoDup (map fst res)).
  { eapply Permutation_NoDup; [apply Permutation_sym, Hfst|].
    apply NoDup_firstn.
    eapply Permutation_NoDup; [apply Permutation_sym, Hranked | exact Hnd]. }
  eexists. split; [exact Hs|]. simpl. split; [reflexivity|]. split.
  - apply Forall_forall. intros b Hb. apply index_or_zero_nth. now apply Hincl.
  - apply sorted_le_strict; [exact Hnodup | exact Hincl |].
    now apply StronglySorted_map.
Qed.

Lemma summary_in_document_order_witness :
  exists s,
    generate_summary
      (lit "Alpha beta gamma delta one. Second sentence is here now. Alpha alpha alpha gamma here.")
      2 = Ok s
    /\ bullet_points s
       = [lit "Alpha beta gamma delta one."; lit "Alpha alpha alpha gamma here."].
Proof.
  destruct (summary_in_document_order
              (lit "Alpha beta gamma delta one. Second sentence is here now. Alpha alpha alpha gamma here.")
              2) as (s & Hs & _); [vm_compute; lia|].
  exists s. split; [exact Hs|].
  vm_compute in Hs. injection Hs as <-. reflexivity.
Defined.

End SummaryProperties.

(** ** Lines, uploads and recent searches *)

Section Lines.
Import Py Re Search Summarizer Builtins Extraction Notions Shapes.

(** X18.  Every line of [split_into_lines] is not empty, holds no newline, and
    neither starts nor ends with white space; there are at most
    [line_count] of them. *)
Theorem split_into_lines_kept (text : str) :
  Forall (fun line =>
            line <> []
            /\ ~ In Extraction.newline line
            /\ stops is_space line
            /\ stops is_space (rev line))
         (split_into_lines text)
  /\ length (split_into_lines text) <= line_count (get_text_metadata text).
Proof.
  unfold split_into_lines. cbv zeta. split.
  - apply Forall_forall. intros line H.
    apply in_map_iff in H as (piece & <- & H).
    apply filter_In in H as [Hin Hne].
    split; [destruct (strip piece); [discriminate Hne | discriminate]|].
    split; [|apply strip_stops].
    pose proof (proj2 (proj2 (split_char_round_trip Extraction.newline text)))
      as Hp.
    rewrite Forall_forall in Hp. specialize (Hp piece Hin).
    assert (Hall : Forall (fun c => c <> Extraction.newline) (strip piece)).
    { apply strip_Forall. apply Forall_forall. intros c Hc ->. now apply Hp. }
    rewrite Forall_forall in Hall. intros Hn. now apply (Hall _ Hn).
  - rewrite length_map. simpl. apply filter_length_le.
Qed.

End Lines.

Section Uploads.
Import Py Builtins Upload.

Lemma last_dot_split (filename : str) :
  In dot filename ->
  exists base ext, filename = base ++ dot :: ext /\ ~ In dot ext.
Proof.
  induction filename as [|c s IH]; [intros []|].
  intros Hin. destruct (in_dec ascii_dec dot s) as [Hs|Hs].
  - destruct (IH Hs) as (base & ext & -> & Hext). now exists (c :: base), ext.
  - destruct Hin as [->|Hin]; [|contradiction]. now exists [], s.
Qed.

Lemma rsplit1_last_dot (base ext : str) :
  ~ In dot ext -> rsplit1 dot (base ++ dot :: ext) = [base; ext].
Proof.
  intros Hext. unfold rsplit1.
  assert (E : existsb (Ascii.eqb dot) (base ++ dot :: ext) = true).
  { apply existsb_exists. exists dot. split; [|apply Ascii.eqb_refl].
    apply in_or_app. right. now left. }
  rewrite E. rewrite rev_app_distr. simpl rev. rewrite <- app_assoc. simpl app.
  rewrite (takewhile_app _ (rev ext) (dot :: rev base)).
  - rewrite rev_involutive. f_equal.
    rewrite length_app. simpl length.
    replace (length base + S (length ext) - length ext - 1) with (length base)
      by lia.
    rewrite firstn_app, firstn_all, Nat.sub_diag. simpl. now rewrite app_nil_r.
  - apply forallb_forall. intros c Hc. apply negb_true_iff.
    apply Ascii.eqb_neq. intros ->. apply Hext. now apply in_rev.
  - reflexivity.
Qed.

(** X19.  [allowed_file] accepts exactly the names whose part after the last
    dot is, case apart, one of pdf, ppt, pptx and txt; a name without dot
    is refused. *)
Theorem allowed_file_by_extension (filename : str) :
  allowed_file filename = true
  <-> exists base ext,
        filename = base ++ dot :: ext
        /\ ~ In dot ext
        /\ mem (lower ext) ALLOWED_EXTENSIONS = true.
Proof.
  unfold allowed_file. split.
  - intros H. apply andb_true_iff in H as [H1 H2].
    apply existsb_exists in H1 as (c & Hc & E). apply Ascii.eqb_eq in E. subst c.
    destruct (last_dot_split filename Hc) as (base & ext & -> & Hext).
    exists base, ext. split; [reflexivity|]. split; [exact Hext|].
    now rewrite (rsplit1_last_dot base ext Hext) in H2.
  - intros (base & ext & -> & Hext & H).
    rewrite (rsplit1_last_dot base ext Hext). simpl nth. rewrite H.
    rewrite andb_true_r. apply existsb_exists. exists dot.
    split; [|apply Ascii.eqb_refl]. apply in_or_app. right. now left.
Qed.

End Uploads.

Section RecentSearches.
Import Py Re Search Summarizer App Notions.

(** X20.  A search with a query that is not empty once stripped renders the
    result of [search_in_text] for the stripped query and keeps the list of
    recent searches in shape: the query is in it, and if the list held no
    query twice and at most 5 queries before, it still does. *)
Theorem search_results_recent
    (text : str) (recent0 : option (list str)) (form : option str) :
  let before := match recent0 with Some l => l | None => [] end in
  form_query form <> [] ->
  NoDup before ->
  length before <= 5 ->
  exists results recent,
    search_results (mkSession (Some text) recent0) form
    = Some (Render (lit "results.html") (form_query form) results recent,
            mkSession (Some text) (Some recent))
    /\ search_in_text text (form_query form) default_context = Some results
    /\ In (form_query form) recent
    /\ NoDup recent
    /\ length recent <= 5.
Proof.
  cbv zeta. intros Hq Hnd Hlen. unfold search_results. simpl session_text.
  simpl recent_searches.
  destruct (form_query form) as [|a q] eqn:E; [congruence|].
  rewrite search_in_text_eq.
  set (before := match recent0 with Some l => l | None => [] end) in *.
  destruct (mem (a :: q) before) eqn:M.
  - do 2 eexists. split; [reflexivity|]. split; [reflexivity|].
    split; [now apply mem_In|]. now split.
  - do 2 eexists. split; [reflexivity|]. split; [reflexivity|].
    split; [now left|]. split.
    + apply NoDup_firstn. constructor; [|exact Hnd].
      intros Hin. apply mem_In in Hin. congruence.
    + rewrite length_firstn. lia.
Qed.

Lemma search_results_recent_witness :
  exists results recent,
    search_results
      (mkSession (Some (lit "a b a")) (Some [lit "x"; lit "y"]))
      (Some (lit " a "))
    = Some (Render (lit "results.html") (lit "a") results recent,
            mkSession (Some (lit "a b a")) (Some recent))
    /\ recent = [lit "a"; lit "x"; lit "y"].
Proof.
  destruct (search_results_recent (lit "a b a") (Some [lit "x"; lit "y"])
              (Some (lit " a ")))
    as (results & recent & H & _).
  - discriminate.
  - repeat constructor; simpl; intuition discriminate.
  - simpl. lia.
  - exists results, recent. split; [exact H|].
    vm_compute in H. injection H as _ <-. reflexivity.
Defined.

End RecentSearches.

Section Containment.
Import Py Re Search Notions.

Lemma contains_true (sub s : str) :
  contains sub s = true <-> exists j, j <= length s /\ startswith sub (skipn j s) = true.
Proof.
  unfold contains. split.
  - destruct (find0 s sub) as [i|] eqn:F; [|discriminate]. intros _.
    apply find0_some in F as (H1 & H2 & _). eauto.
  - intros (j & Hj & H). destruct (find0 s sub) as [i|] eqn:F; [reflexivity|].
    now rewrite (find0_none _ _ F j Hj) in H.
Qed.

(** X21.  A search finds nothing exactly when the lower-cased text does
    not hold the lower-cased query. *)
Theorem search_finds_iff_contained (text query : str) (c : nat) :
  exists r,
    search_in_text text query c = Some r
    /\ (count r = 0 <-> contains (lower query) (lower text) = false)
    /\ (matches r = [] <-> contains (lower query) (lower text) = false).
Proof.
  rewrite search_in_text_eq. eexists. split; [reflexivity|]. simpl count.
  simpl matches.
  assert (H : occurrences (lower text) (lower query) 0 = []
              <-> contains (lower query) (lower text) = false).
  { split.
    - intros H.
      destruct (contains (lower query) (lower text)) eqn:E; [|reflexivity].
      apply contains_true in E as (j & Hj & Hs).
      assert (Hin : In j (occurrences (lower text) (lower query) 0)).
      { apply occurrences_In. split; [lia|]. now apply occurs_startswith. }
      rewrite H in Hin. contradiction.
    - intros H.
      destruct (occurrences (lower text) (lower query) 0) as [|p l] eqn:E;
        [reflexivity|].
      assert (Hin : In p (occurrences (lower text) (lower query) 0))
        by (rewrite E; now left).
      apply occurrences_In in Hin as [_ Hocc]. pose proof Hocc as [Hlen _].
      apply occurs_startswith in Hocc; [|lia].
      now rewrite (contains_false _ _ H p) in Hocc. }
  split.
  - rewrite <- H. apply length_zero_iff_nil.
  - rewrite <- H. split.
    + intros E. now apply map_eq_nil in E.
    + intros ->. reflexivity.
Qed.

End Containment.
